(** * mathematics_dataset: the algebra generators and the file driver

    A shallow embedding of [mathematics_dataset/modules/algebra.py] and
    [mathematics_dataset/generate_to_file.py].

    The Python code draws from process-wide random generators, mutates a
    composition context and may raise; it is embedded in a state-and-error
    monad.  Python floats (entropies, probabilities) are embedded as exact
    rationals [Qc]; the statements below only use their order.  The two
    [while True] loops of [algebra.py] are structural recursions on a fuel
    argument that bounds the number of iterations the model follows. *)

From Stdlib Require Import ZArith QArith Qcanon Lia Ascii.
From stdpp Require Import base numbers list sorting strings gmap pretty.

Local Set Warnings "-register-all".

Local Open Scope Z_scope.
Local Open Scope Qc_scope.

(** ** Outcomes and the state-and-error monad *)

(** The Python exceptions the embedded code can raise by itself. *)
Inductive exn : Type :=
  | IndexError
  | AssertionError
  | ValueError (msg : string)
  | KeyError (key : string)
  | NameError (name : string)
  (** [sympy.polys.polyerrors.GeneratorsNeeded] *)
  | GeneratorsNeeded.

Section Effects.
Context {W : Type}.

(** What a run from a world ends in: a value, an exception, or the end of
    the fuel inside a [while True] loop.  Each keeps the world it reached. *)
Inductive outcome (A : Type) : Type :=
  | Ok (a : A) (w : W)
  | Raise (e : exn) (w : W)
  | OutOfFuel (w : W).
Global Arguments Ok {A} a w.
Global Arguments Raise {A} e w.
Global Arguments OutOfFuel {A} w.

Definition M (A : Type) : Type := W -> outcome A.

Definition ret {A} (a : A) : M A := fun w => Ok a w.

Definition bind {A B} (m : M A) (k : A -> M B) : M B :=
  fun w =>
    match m w with
    | Ok a w' => k a w'
    | Raise e w' => Raise e w'
    | OutOfFuel w' => OutOfFuel w'
    end.

Definition raise {A} (e : exn) : M A := fun w => Raise e w.

Definition out_of_fuel {A} : M A := fun w => OutOfFuel w.

(** The world an outcome stopped in. *)
Definition final_world {A} (o : outcome A) : W :=
  match o with
  | Ok _ w | Raise _ w | OutOfFuel w => w
  end.

(** The run did not end inside a loop for lack of fuel. *)
Definition halts {A} (o : outcome A) : Prop :=
  match o with
  | OutOfFuel _ => False
  | _ => True
  end.

(** [seq[i]] on a Python list. *)
Definition getitem {A} (l : list A) (i : nat) : M A :=
  match l !! i with
  | Some x => ret x
  | None => raise IndexError
  end.

(** A list comprehension whose body has effects, left to right. *)
Fixpoint for_each {A B} (f : A -> M B) (l : list A) : M (list B) :=
  match l with
  | [] => ret []
  | x :: l' =>
      bind (f x) (fun y => bind (for_each f l') (fun ys => ret (y :: ys)))
  end.

(** [for x in l: body], the body updating the loop's variables [s]. *)
Fixpoint for_in {A S} (l : list A) (body : A -> S -> M S) (s : S) : M S :=
  match l with
  | [] => ret s
  | x :: l' => bind (body x s) (for_in l' body)
  end.

(** [for _ in range(n): body] *)
Fixpoint for_range {S} (n : nat) (body : S -> M S) (s : S) : M S :=
  match n with
  | O => ret s
  | S n' => bind (body s) (for_range n' body)
  end.
End Effects.

Arguments outcome W A : clear implicits.
Arguments M W A : clear implicits.

(** The monad is used through stdpp's [x ← m; k] notation. *)
Global Instance M_ret {W} : MRet (M W) := @ret W.
Global Instance M_bind {W} : MBind (M W) := fun A B k m => bind m k.

(** ** Numbers *)

Definition Qcmax (x y : Qc) : Qc := if decide (x ≤ y) then y else x.
Definition Qcmin (x y : Qc) : Qc := if decide (x ≤ y) then x else y.

(** [sum(xs)] *)
Definition Qcsum (xs : list Qc) : Qc := foldr Qcplus 0 xs.

(** [sympy.denom(q)], the positive denominator of the reduced fraction. *)
Definition denom (q : Qc) : Z := Zpos (Qden (this q)).

(** [sympy.lcm(list)] on a list of integers. *)
Definition lcm_list (ds : list Z) : Z := foldr Z.lcm 1%Z ds.

(** ** Polynomials in one variable, as sympy expands them

    A polynomial is the list of its coefficients, the coefficient of
    [x ** i] at index [i]. *)

(** [(x - root) * p] *)
Definition mul_linear (root : Qc) (p : list Qc) : list Qc :=
  zip_with Qcplus (0 :: p) (map (Qcmult (- root)) p ++ [0]).

(** [sympy.prod([x - root for root in roots])], expanded. *)
Definition expand_product (roots : list Qc) : list Qc :=
  foldr mul_linear [1] roots.

(** [sympy.Poly(sympy.prod([variable - root for root in roots]))], as the
    coefficients of the expanded product.  The product of no factor is the
    number 1, in which [sympy.Poly] finds no generator: it raises
    [GeneratorsNeeded]. *)
Definition sympy_Poly {W} (roots : list Qc) : M W (list Qc) :=
  match roots with
  | [] => raise GeneratorsNeeded
  | _ :: _ => ret (expand_product roots)
  end.

(** [polynomial.all_coeffs()]: the coefficients from the leading one down. *)
Definition all_coeffs (polynomial : list Qc) : list Qc := rev polynomial.

(** The number [product_{root in roots} (x - root)]. *)
Definition prod_linear (roots : list Qc) (x : Qc) : Qc :=
  foldr (λ root acc, (x - root) * acc) 1 roots.

(** The value at [x] of the polynomial with the given coefficients. *)
Definition eval_poly (p : list Qc) (x : Qc) : Qc :=
  foldr (λ c acc, c + x * acc) 0 p.

Module Algebra.

(** A variable name, the argument of [sympy.Symbol]. *)
Definition Symbol : Type := string.

(** [composition.SampleArgs], what [peel] hands on. *)
Record SampleArgs : Type := {
  num_modules : Z;
  entropy : Qc
}.

(** What [algebra.py] imports: the other modules of the package
    ([composition], [example], [sample.number], [sample.linear_system],
    [sample.polynomials], [ops]) and the third-party libraries ([random],
    [numpy.random], [sympy]), as total functions of their arguments and of
    the state of the random generators; an exception raised inside one of
    them is outside the model.  The fields below the functions are the
    contracts the code relies on. *)
Class Collaborators : Type := {
  (** state of the process-wide random generators *)
  Rng : Type;
  (** sympy expressions (equations included) *)
  Expr : Type;
  (** [composition.Context] *)
  Context : Type;
  (** whatever carries [peel]: a [PreSampleArgs] or a [SampleArgs] *)
  Budget : Type;
  (** an entity as [Context.sample] returns it *)
  SampledEntity : Type;

  (** [random.randint(a, b)] *)
  random_randint : Z → Z → Rng → Z * Rng;
  (** [random.random()] *)
  random_random : Rng → Qc * Rng;
  (** [random.uniform(a, b)] *)
  random_uniform : Qc → Qc → Rng → Qc * Rng;
  (** the position [random.choice] picks in a sequence of the given length *)
  random_choice_index : nat → Rng → nat * Rng;
  (** [np.random.binomial(n, p)] *)
  np_random_binomial : Z → Qc → Rng → Z * Rng;
  (** [np.random.dirichlet(np.ones(k))] *)
  np_random_dirichlet : nat → Rng → list Qc * Rng;

  (** [number.integer(entropy, signed)] *)
  number_integer : Qc → bool → Rng → Z * Rng;
  (** [number.non_integer_rational(entropy, signed)] *)
  number_non_integer_rational : Qc → bool → Rng → Qc * Rng;
  (** [number.integer_or_rational(entropy, signed)] *)
  number_integer_or_rational : Qc → bool → Rng → Qc * Rng;
  (** [linear_system.linear_system(variables, solutions, entropy,
      non_trivial_in)] *)
  linear_system_linear_system :
    list Symbol → list Qc → Qc → nat → Rng → list Expr * Rng;
  (** [polynomials.sample_with_small_evaluation(variable, degree,
      max_abs_input, entropy).sympy()] *)
  polynomials_sample_with_small_evaluation :
    Symbol → Z → Z → Qc → Rng → Expr * Rng;
  (** [polynomials.coefficients_to_polynomial(coeffs, variable)] *)
  polynomials_coefficients_to_polynomial : list Qc → Symbol → Expr;
  (** [ops.number_constants(equations)] *)
  ops_number_constants : list Expr → list Qc;
  (** [ops.Eq(left, right)] *)
  ops_Eq : Expr → Z → Expr;
  (** [sympy.factor(expression)] *)
  sympy_factor : Expr → Expr;
  (** [expression.subs(variable, n)] *)
  sympy_subs : Expr → Symbol → Z → Expr;
  (** [str(expression)] *)
  str : Expr → string;

  (** [sample_args.peel()] *)
  peel : Budget → Rng → (Qc * SampleArgs) * Rng;
  (** [composition.Context()] *)
  Context_new : Context;
  (** [context.pop()]; the context is changed in place *)
  Context_pop : Context → Rng → (string * Context) * Rng;
  (** [context.sample(sample_args, [composition.Polynomial(coeffs), ...])];
      the context is changed in place *)
  Context_sample :
    SampleArgs → list (list Qc) → Context → Rng →
    (list SampledEntity * Context) * Rng;
  (** [context.sample_by_replacing_constants(sample_args, expressions)];
      the expressions and the context are changed in place *)
  Context_sample_by_replacing_constants :
    SampleArgs → list Expr → Context → Rng → (list Expr * Context) * Rng;
  (** [entity.has_expression()] *)
  has_expression : SampledEntity → bool;
  (** [entity.expression] *)
  expression : SampledEntity → Expr;
  (** [entity.polynomial_variables] *)
  polynomial_variables : SampledEntity → list Symbol;
  (** [entity.handle.apply(variable)] *)
  handle_apply : SampledEntity → Symbol → Expr;

  random_randint_range : ∀ a b g,
    (a ≤ b)%Z → (a ≤ (random_randint a b g).1 ≤ b)%Z;
  random_choice_index_range : ∀ n g,
    (0 < n)%nat → ((random_choice_index n g).1 < n)%nat;
  np_random_binomial_range : ∀ n p g,
    (0 ≤ n)%Z → (0 ≤ (np_random_binomial n p g).1 ≤ n)%Z;
  np_random_dirichlet_length : ∀ k g,
    length (np_random_dirichlet k g).1 = k;
  (** [Context.sample] returns one entity per requested value, and an
      entity that has an expression lists its variable. *)
  Context_sample_entities : ∀ sample_args values context g,
    length (Context_sample sample_args values context g).1.1 = length values
    ∧ Forall (λ e, has_expression e = true → polynomial_variables e ≠ [])
        (Context_sample sample_args values context g).1.1
}.

(** A call of one of the entropy-driven samplers, with the arguments it got. *)
Inductive event : Type :=
  | CallInteger (entropy : Qc) (signed : bool)
  | CallNonIntegerRational (entropy : Qc) (signed : bool)
  | CallIntegerOrRational (entropy : Qc) (signed : bool)
  | CallLinearSystem
      (variables : list Symbol) (solutions : list Qc) (entropy : Qc)
      (non_trivial_in : nat).

(** The world a generator runs in: the random state, and the log of the
    sampler calls made so far, the latest first. *)
Record world `{Collaborators} : Type := {
  rng : Rng;
  calls : list event
}.

Section Generators.
Context `{Collaborators}.

Local Abbreviation Gen := (M world).

(** A collaborator that only advances the random state. *)
Definition draw {A} (f : Rng → A * Rng) : Gen A :=
  λ w, Ok (f (rng w)).1 {| rng := (f (rng w)).2; calls := calls w |}.

(** A sampler call that is also logged. *)
Definition sample {A} (ev : event) (f : Rng → A * Rng) : Gen A :=
  λ w, Ok (f (rng w)).1 {| rng := (f (rng w)).2; calls := ev :: calls w |}.

Definition randint (a b : Z) : Gen Z := draw (random_randint a b).
Definition random : Gen Qc := draw random_random.
Definition uniform (a b : Qc) : Gen Qc := draw (random_uniform a b).
Definition binomial (n : Z) (p : Qc) : Gen Z := draw (np_random_binomial n p).
Definition dirichlet (k : nat) : Gen (list Qc) := draw (np_random_dirichlet k).

(** [random.choice(seq)] *)
Definition choice {A} (l : list A) : Gen A :=
  i ← draw (random_choice_index (length l)); getitem l i.

Definition integer (entropy : Qc) (signed : bool) : Gen Qc :=
  z ← sample (CallInteger entropy signed) (number_integer entropy signed);
  mret (Qc_of_Z z).
Definition non_integer_rational (entropy : Qc) (signed : bool) : Gen Qc :=
  sample (CallNonIntegerRational entropy signed)
    (number_non_integer_rational entropy signed).
Definition integer_or_rational (entropy : Qc) (signed : bool) : Gen Qc :=
  sample (CallIntegerOrRational entropy signed)
    (number_integer_or_rational entropy signed).
Definition linear_system
    (variables : list Symbol) (solutions : list Qc) (entropy : Qc)
    (non_trivial_in : nat) : Gen (list Expr) :=
  sample (CallLinearSystem variables solutions entropy non_trivial_in)
    (linear_system_linear_system variables solutions entropy non_trivial_in).

Definition pop (context : Context) : Gen (string * Context) :=
  draw (Context_pop context).

(** *** Problems and entities *)

(** What fills a template slot or stands as an answer:
    a number, a sympy expression, a symbol, a piece of text, or a
    [display.NumberList]. *)
Inductive Value : Type :=
  | VNumber (q : Qc)
  | VExpr (e : Expr)
  | VSymbol (s : Symbol)
  | VText (s : string)
  | NumberList (l : list Value).

(** [example.question(context, template, **kwargs)], kept as what it was
    given. *)
Record Question : Type := {
  question_context : Context;
  question_template : string;
  question_kwargs : list (string * Value)
}.

(** [example.Problem(question, answer)] *)
Record Problem : Type := {
  question : Question;
  answer : Value
}.

(** [composition.Entity(context, value, description, handle, equations)] *)
Record Entity : Type := {
  entity_context : Context;
  value : Qc;
  description : string;
  handle : Symbol;
  equations : string
}.

(** What a generator returns: a rendered problem or an entity. *)
Inductive Result : Type :=
  | RProblem (p : Problem)
  | REntity (e : Entity).

(** *** Polynomial roots *)

Definition _POLY_PROBABILITY_REPEATED_ROOT : Qc := Q2Qc (2 # 10).

(** The second loop of [_sample_roots]:
    [for _ in range(n): roots.append(random.choice(roots[:num_distinct]))]. *)
Fixpoint append_repeated (n : nat) (num_distinct : nat) (roots : list Qc)
    : Gen (list Qc) :=
  match n with
  | O => mret roots
  | S n' =>
      root ← choice (take num_distinct roots);
      append_repeated n' num_distinct (roots ++ [root])
  end.

Definition _sample_roots (entropy : Qc) : Gen (list Qc) :=
  num_roots ← randint 2 5;
  num_repeated ← binomial (num_roots - 1) _POLY_PROBABILITY_REPEATED_ROOT;
  let num_repeated :=
    if decide (Qc_of_Z 4 < entropy)
    then Z.min num_repeated (Z.quot num_roots 2)
    else num_repeated in
  let num_distinct := (num_roots - num_repeated)%Z in
  weights ← dirichlet (Z.to_nat num_distinct);
  let entropies := map (Qcmult entropy) weights in
  roots ← for_each (λ root_entropy,
      u ← random;
      if decide (u < Q2Qc (1 # 10))
      then non_integer_rational root_entropy true
      else integer root_entropy true) entropies;
  append_repeated (Z.to_nat num_repeated) (Z.to_nat num_distinct) roots.

(** The [while True] loop of [_polynomial_coeffs_with_roots]: draw a scale
    until it is not zero. *)
Fixpoint sample_scale (fuel : nat) (scale_entropy : Qc) : Gen Qc :=
  match fuel with
  | O => out_of_fuel
  | S fuel' =>
      scale ← integer_or_rational scale_entropy true;
      if decide (scale ≠ 0) then mret scale
      else sample_scale fuel' scale_entropy
  end.

Definition _polynomial_coeffs_with_roots
    (fuel : nat) (roots : list Qc) (scale_entropy : Qc) : Gen (list Qc) :=
  polynomial ← sympy_Poly roots;
  let coeffs_reversed := all_coeffs polynomial in
  _ ← (if decide (length coeffs_reversed = (length roots + 1)%nat)
       then mret tt else raise AssertionError);
  let coeffs := rev coeffs_reversed in
  let lcm := lcm_list (map denom coeffs) in
  scale ← (if decide (0 < scale_entropy)
           then sample_scale fuel scale_entropy
           else mret 1);
  mret (map (λ coeff, coeff * scale * Qc_of_Z lcm) coeffs).

Definition polynomial_roots_templates : list string :=
  [ "Let {equality}. What is {variable}?";
    "Let {equality}. Calculate {variable}.";
    "Suppose {equality}. What is {variable}?";
    "Suppose {equality}. Calculate {variable}.";
    "What is {variable} in {equality}?";
    "Solve {equality} for {variable}.";
    "Find {variable} such that {equality}.";
    "Find {variable}, given that {equality}.";
    "Determine {variable} so that {equality}.";
    "Determine {variable}, given that {equality}.";
    "Solve {equality}." ].

Definition polynomial_roots
    (fuel : nat) (value : option Qc) (sample_args : Budget)
    (context : option Context) : Gen Result :=
  let context := match context with None => Context_new | Some c => c end in
  '(entropy, sample_args) ← draw (peel sample_args);
  let scale_entropy := Qcmin (entropy / Qc_of_Z 2) 1 in
  roots ← _sample_roots (entropy - scale_entropy);
  let solutions := merge_sort Qcle (remove_dups roots) in
  coeffs ← _polynomial_coeffs_with_roots fuel roots scale_entropy;
  '(entities, context) ← draw (Context_sample sample_args [coeffs] context);
  polynomial_entity ←
    match entities with
    | [e] => mret e
    | _ => raise (ValueError "unpack")
    end;
  ask_roots ← choice [false; true];
  if ask_roots : bool then
    let answer :=
      match solutions with
      | [solution] => VNumber solution
      | _ => NumberList (map VNumber solutions)
      end in
    '(equality, variable, context) ←
      (if has_expression polynomial_entity then
         variable ← getitem (polynomial_variables polynomial_entity) 0;
         mret (ops_Eq (expression polynomial_entity) 0, variable, context)
       else
         '(name, context) ← pop context;
         mret (ops_Eq (handle_apply polynomial_entity name) 0, name, context));
    template ← choice polynomial_roots_templates;
    mret (RProblem {|
      question := {|
        question_context := context;
        question_template := template;
        question_kwargs :=
          [("equality", VExpr equality); ("variable", VSymbol variable)] |};
      answer := answer |})
  else
    '(expression_, variable, context) ←
      (if has_expression polynomial_entity then
         variable ← getitem (polynomial_variables polynomial_entity) 0;
         mret (expression polynomial_entity, variable, context)
       else
         '(name, context) ← pop context;
         mret (handle_apply polynomial_entity name, name, context));
    let factored :=
      sympy_factor (polynomials_coefficients_to_polynomial coeffs variable) in
    template ← choice ["Factor {expression}."];
    mret (RProblem {|
      question := {|
        question_context := context;
        question_template := template;
        question_kwargs := [("expression", VExpr expression_)] |};
      answer := VExpr factored |}).

(** *** Linear systems *)

(** [[sympy.Symbol(context.pop()) for _ in range(n)]] *)
Fixpoint pop_symbols (n : nat) (context : Context)
    : Gen (list Symbol * Context) :=
  match n with
  | O => mret ([], context)
  | S n' =>
      '(name, context) ← pop context;
      '(names, context) ← pop_symbols n' context;
      mret (name :: names, context)
  end.

(** The [while True] loop of [_solve_linear_system]: build a system until it
    has number constants, or at once when nothing is to be composed. *)
Fixpoint construct_equations
    (fuel : nat) (variables : list Symbol) (solutions : list Qc)
    (entropy : Qc) (solution_index : nat) (sample_args : SampleArgs)
    : Gen (list Expr) :=
  match fuel with
  | O => out_of_fuel
  | S fuel' =>
      equations ← linear_system variables solutions entropy solution_index;
      let constants := ops_number_constants equations in
      if bool_decide (num_modules sample_args ≤ 1)%Z
         || bool_decide (constants ≠ [])
      then mret equations
      else construct_equations fuel' variables solutions entropy
             solution_index sample_args
  end.

Definition _solve_linear_system
    (fuel : nat) (degree : Z) (value : option Qc) (sample_args : Budget)
    (context : option Context) : Gen Result :=
  let is_question := match context with None => true | Some _ => false end in
  let context := match context with None => Context_new | Some c => c end in
  '(entropy, sample_args) ← draw (peel sample_args);
  let solutions := match value with Some v => [v] | None => [] end in
  let extra_solutions_needed := (degree - Z.of_nat (length solutions))%Z in
  '(entropy, solutions) ←
    (if decide (0 < extra_solutions_needed)%Z then
       weights ← dirichlet (Z.to_nat extra_solutions_needed);
       let entropies := map (Qcmult (entropy / Qc_of_Z 4)) weights in
       let entropies := map (Qcmax 1) entropies in
       let entropy := entropy - Qcsum entropies in
       extra ← for_each (λ solution_entropy, integer solution_entropy true)
                 entropies;
       mret (entropy, solutions ++ extra)
     else mret (entropy, solutions));
  let entropy := Qcmax 1 entropy in
  '(variables, context) ← pop_symbols (Z.to_nat degree) context;
  let solution_index := 0%nat in
  equations ← construct_equations fuel variables solutions entropy
                solution_index sample_args;
  '(equations, context) ←
    draw (Context_sample_by_replacing_constants sample_args equations context);
  variable ← getitem variables solution_index;
  answer ← getitem solutions solution_index;
  let equations := String.concat ", " (map str equations) in
  if is_question : bool then
    template ← choice ["Solve {equations} for {variable}."];
    mret (RProblem {|
      question := {|
        question_context := context;
        question_template := template;
        question_kwargs :=
          [("equations", VText equations); ("variable", VSymbol variable)] |};
      answer := VNumber answer |})
  else
    mret (REntity {|
      entity_context := context;
      value := answer;
      description := "Suppose {equations}.";
      handle := variable;
      equations := equations |}).

(** [@composition.module(number.is_integer)] tags the function with the
    predicate and leaves its behaviour as it is. *)
Definition solve_linear_1d
    (fuel : nat) (value : option Qc) (sample_args : Budget)
    (context : option Context) : Gen Result :=
  _solve_linear_system fuel 1 value sample_args context.

Definition solve_linear_2d
    (fuel : nat) (value : option Qc) (sample_args : Budget)
    (context : option Context) : Gen Result :=
  _solve_linear_system fuel 2 value sample_args context.

(** *** Polynomial sequences *)

Record _PolynomialSequence : Type := {
  _degree : Z;
  _variable : Symbol;
  _sympy : Expr
}.

(** [_PolynomialSequence.__init__] *)
Definition PolynomialSequence_init
    (variable : Symbol) (entropy : Qc) (min_degree max_degree : Z)
    : Gen _PolynomialSequence :=
  degree ← randint min_degree max_degree;
  polynomial ← draw (polynomials_sample_with_small_evaluation
                       variable degree (degree + 2) entropy);
  mret {| _degree := degree; _variable := variable; _sympy := polynomial |}.

Definition min_num_terms (self : _PolynomialSequence) : Z := _degree self + 2.

Definition term (self : _PolynomialSequence) (n : Z) : Expr :=
  sympy_subs (_sympy self) (_variable self) n.

(** [[sequence.term(n + 1) for n in range(num_terms)]] *)
Definition sequence_terms (sequence : _PolynomialSequence) (num_terms : Z)
    : list Expr :=
  map (λ n, term sequence (Z.of_nat n + 1)) (seq 0 (Z.to_nat num_terms)).

Definition sequence_next_term (min_entropy max_entropy : Qc) : Gen Problem :=
  entropy ← uniform min_entropy max_entropy;
  let context := Context_new in
  '(variable, context) ← pop context;
  sequence ← PolynomialSequence_init variable entropy 1 3;
  let min_num_terms := min_num_terms sequence in
  num_terms ← randint min_num_terms (min_num_terms + 3);
  let sequence_sample := sequence_terms sequence num_terms in
  let sequence_sample := NumberList (map VExpr sequence_sample) in
  template ← choice
    [ "What is next in {sequence}?";
      "What comes next: {sequence}?";
      "What is the next term in {sequence}?" ];
  let answer := term sequence (num_terms + 1) in
  mret {|
    question := {|
      question_context := context;
      question_template := template;
      question_kwargs := [("sequence", sequence_sample)] |};
    answer := VExpr answer |}.

Definition sequence_nth_term (min_entropy max_entropy : Qc) : Gen Problem :=
  entropy ← uniform min_entropy max_entropy;
  let context := Context_new in
  '(variable, context) ← pop context;
  sequence ← PolynomialSequence_init variable entropy 1 3;
  let min_num_terms := min_num_terms sequence in
  num_terms ← randint min_num_terms (min_num_terms + 3);
  let sequence_sample := sequence_terms sequence num_terms in
  let sequence_sample := NumberList (map VExpr sequence_sample) in
  template ← choice ["What is the {variable}'th term of {sequence}?"];
  let answer := _sympy sequence in
  mret {|
    question := {|
      question_context := context;
      question_template := template;
      question_kwargs :=
        [("variable", VSymbol variable); ("sequence", sequence_sample)] |};
    answer := VExpr answer |}.


(** *** Notions the properties are stated with *)

(** The world after [k] draws of the scale in the loop of
    [_polynomial_coeffs_with_roots] entered in world [w], and the [k]-th
    drawn scale, counting from 0. *)
Fixpoint after_scale_draws (k : nat) (scale_entropy : Qc) (w : world)
    : world :=
  match k with
  | O => w
  | S k' =>
      after_scale_draws k' scale_entropy
        (final_world (integer_or_rational scale_entropy true w))
  end.

Definition scale_draw (k : nat) (scale_entropy : Qc) (w : world) : Qc :=
  (number_integer_or_rational scale_entropy true
     (rng (after_scale_draws k scale_entropy w))).1.

(** The world after [k] constructions of the system in the loop of
    [_solve_linear_system] entered in world [w], and the [k]-th constructed
    system, counting from 0. *)
Fixpoint after_constructions
    (k : nat) (variables : list Symbol) (solutions : list Qc) (entropy : Qc)
    (solution_index : nat) (w : world) : world :=
  match k with
  | O => w
  | S k' =>
      after_constructions k' variables solutions entropy solution_index
        (final_world
           (linear_system variables solutions entropy solution_index w))
  end.

Definition constructed
    (k : nat) (variables : list Symbol) (solutions : list Qc) (entropy : Qc)
    (solution_index : nat) (w : world) : list Expr :=
  (linear_system_linear_system variables solutions entropy solution_index
     (rng (after_constructions k variables solutions entropy solution_index
             w))).1.

(** The loop of [_solve_linear_system] stops at this system. *)
Definition accepted (sample_args : SampleArgs) (equations : list Expr)
    : Prop :=
  (num_modules sample_args ≤ 1)%Z ∨ ops_number_constants equations ≠ [].

(** The sampler calls logged between world [w] and world [w'], the latest
    first. *)
Definition calls_since (w w' : world) (new : list event) : Prop :=
  calls w' = new ++ calls w.


(** The answer of the "ask for the roots" branch. *)
Definition roots_answer (solutions : list Qc) : Value :=
  match solutions with
  | [solution] => VNumber solution
  | _ => NumberList (map VNumber solutions)
  end.

End Generators.
(** *** A concrete set of collaborators

    Deterministic stand-ins driven by a tape of natural numbers, each draw
    consuming one entry (0 once the tape is empty).  They satisfy the
    library contracts of [Collaborators] and run inside Rocq, so the
    generators can be evaluated on explicit inputs. *)

Inductive tape_expr : Type :=
  | TPoly (coeffs : list Qc) (variable : Symbol)
  | TApply (handle_ : Symbol) (variable : Symbol)
  | TEq (left : tape_expr) (right : Z)
  | TFactor (e : tape_expr)
  | TSubs (e : tape_expr) (variable : Symbol) (n : Z)
  | TLinear (variables : list Symbol) (constants : list Qc).

Record tape_entity : Type := {
  tape_has_expression : bool;
  tape_expression : tape_expr;
  tape_polynomial_variables : list Symbol
}.

Definition tape_next (g : list nat) : nat * list nat :=
  match g with
  | [] => (0%nat, [])
  | n :: g' => (n, g')
  end.

Definition tape_randint (a b : Z) (g : list nat) : Z * list nat :=
  ((a + Z.of_nat (tape_next g).1 `mod` (b - a + 1))%Z, (tape_next g).2).

Definition tape_choice_index (n : nat) (g : list nat) : nat * list nat :=
  (((tape_next g).1 `mod` n)%nat, (tape_next g).2).

Definition tape_binomial (n : Z) (p : Qc) (g : list nat) : Z * list nat :=
  ((Z.of_nat (tape_next g).1 `mod` (n + 1))%Z, (tape_next g).2).

Definition tape_dirichlet (k : nat) (g : list nat) : list Qc * list nat :=
  (replicate k (Q2Qc (1 # Pos.of_nat k)), g).

(** A system over the given variables; it has number constants exactly when
    the tape entry is not 0. *)
Definition tape_linear_system
    (variables : list Symbol) (solutions : list Qc) (entropy : Qc)
    (non_trivial_in : nat) (g : list nat) : list tape_expr * list nat :=
  ([TLinear variables
      (match (tape_next g).1 with O => [] | S _ => solutions end)],
   (tape_next g).2).

Definition tape_number_constants (equations : list tape_expr) : list Qc :=
  mjoin (map (λ e, match e with TLinear _ cs => cs | _ => [] end) equations).

Definition tape_str (e : tape_expr) : string :=
  match e with
  | TLinear variables _ => String.concat " + " variables +:+ " = 0"
  | _ => "expression"
  end.

(** The [k]-th name of the pool. *)
Definition tape_name (k : nat) : string :=
  default "z" (["a"; "b"; "c"; "d"; "f"; "g"; "h"] !! k).

(** The context is the number of names handed out so far. *)
Definition tape_pop (context : nat) (g : list nat)
    : (string * nat) * list nat :=
  ((tape_name context, S context), g).

(** One entity per requested polynomial: with its expression when nothing
    is composed, behind a handle otherwise. *)
Definition tape_sample
    (sample_args : SampleArgs) (values : list (list Qc)) (context : nat)
    (g : list nat) : (list tape_entity * nat) * list nat :=
  ((map (λ coeffs,
      {| tape_has_expression := bool_decide (num_modules sample_args ≤ 1)%Z;
         tape_expression := TPoly coeffs "x";
         tape_polynomial_variables := ["x"] |}) values,
    context), g).

#[refine] Instance tape : Collaborators := {|
  Rng := list nat;
  Expr := tape_expr;
  Context := nat;
  Budget := SampleArgs;
  SampledEntity := tape_entity;
  random_randint := tape_randint;
  random_random := λ g,
    (Q2Qc (Z.of_nat ((tape_next g).1 `mod` 10) # 10), (tape_next g).2);
  random_uniform := λ a b g, (a, g);
  random_choice_index := tape_choice_index;
  np_random_binomial := tape_binomial;
  np_random_dirichlet := tape_dirichlet;
  number_integer := λ entropy signed g,
    ((Z.of_nat (tape_next g).1 - 2)%Z, (tape_next g).2);
  number_non_integer_rational := λ entropy signed g,
    (Q2Qc ((2 * Z.of_nat (tape_next g).1 + 1) # 2), (tape_next g).2);
  number_integer_or_rational := λ entropy signed g,
    (Qc_of_Z (Z.of_nat (tape_next g).1), (tape_next g).2);
  linear_system_linear_system := tape_linear_system;
  polynomials_sample_with_small_evaluation := λ variable degree _ _ g,
    (TPoly (replicate (Z.to_nat degree + 1) 1) variable, g);
  polynomials_coefficients_to_polynomial := TPoly;
  ops_number_constants := tape_number_constants;
  ops_Eq := TEq;
  sympy_factor := TFactor;
  sympy_subs := TSubs;
  str := tape_str;
  peel := λ sample_args g, ((entropy sample_args, sample_args), g);
  Context_new := 0%nat;
  Context_pop := tape_pop;
  Context_sample := tape_sample;
  Context_sample_by_replacing_constants := λ _ equations context g,
    ((equations, context), g);
  has_expression := tape_has_expression;
  expression := tape_expression;
  polynomial_variables := tape_polynomial_variables;
  handle_apply := λ _ variable, TApply "f" variable
|}.
Proof.
  - intros a b g Hab. unfold tape_randint. simpl.
    pose proof (Z.mod_pos_bound (Z.of_nat (tape_next g).1) (b - a + 1)). lia.
  - intros n g Hn. unfold tape_choice_index. simpl.
    apply Nat.mod_upper_bound. lia.
  - intros n p g Hn. unfold tape_binomial. simpl.
    pose proof (Z.mod_pos_bound (Z.of_nat (tape_next g).1) (n + 1)). lia.
  - intros k g. unfold tape_dirichlet. simpl. apply length_replicate.
  - intros sample_args values context g. unfold tape_sample. simpl. split.
    + apply length_map.
    + apply Forall_forall. intros e He _.
      apply list_elem_of_fmap in He as (coeffs & -> & _). done.
Defined.

(** A world with the given tape and no call logged yet, and a budget. *)
Definition tape_world (t : list nat) : world (H := tape) :=
  {| rng := t; calls := [] |}.

Definition tape_args (n : Z) : SampleArgs :=
  {| num_modules := n; entropy := Qc_of_Z 8 |}.

(** *** The registry of modules *)

Section Registry.
Context `{Collaborators}.
(** [composition.PreSampleArgs(min_modules, max_modules, min_entropy,
    max_entropy)] *)
Variable PreSampleArgs : Z → Z → Qc → Qc → Budget.

Definition _ENTROPY_TRAIN : Qc * Qc := (Qc_of_Z 3, Qc_of_Z 10).
Definition _ENTROPY_INTERPOLATE : Qc * Qc := (Qc_of_Z 8, Qc_of_Z 8).
Definition _ENTROPY_EXTRAPOLATE : Qc * Qc := (Qc_of_Z 12, Qc_of_Z 12).

(** A registered module: a callable without arguments.  The fuel bounds the
    [while True] loops of the call; the problem of a sequence module is
    given as a result like the others. *)
Definition Module_ : Type := nat → M world Result.

(** [functools.partial(sequence_next_term, *entropy)] and the like. *)
Definition sequence_module
    (generator : Qc → Qc → M world Problem) (entropy : Qc * Qc) : Module_ :=
  λ _, problem ← generator entropy.1 entropy.2; mret (RProblem problem).

(** The dictionary [_make_modules] returns, in the order of its keys. *)
Definition _make_modules (entropy : Qc * Qc) : list (string * Module_) :=
  let sample_args_pure := PreSampleArgs 1 1 entropy.1 entropy.2 in
  let sample_args_composed := PreSampleArgs 2 4 entropy.1 entropy.2 in
  [ ("polynomial_roots",
     λ fuel, polynomial_roots fuel None sample_args_pure None);
    ("polynomial_roots_composed",
     λ fuel, polynomial_roots fuel None sample_args_composed None);
    ("linear_1d", λ fuel, solve_linear_1d fuel None sample_args_pure None);
    ("linear_1d_composed",
     λ fuel, solve_linear_1d fuel None sample_args_composed None);
    ("linear_2d", λ fuel, solve_linear_2d fuel None sample_args_pure None);
    ("linear_2d_composed",
     λ fuel, solve_linear_2d fuel None sample_args_composed None);
    ("sequence_next_term", sequence_module sequence_next_term entropy);
    ("sequence_nth_term", sequence_module sequence_nth_term entropy) ].

Definition train (entropy_fn : Qc * Qc → Qc * Qc)
    : list (string * Module_) :=
  _make_modules (entropy_fn _ENTROPY_TRAIN).

Definition test : list (string * Module_) :=
  _make_modules _ENTROPY_INTERPOLATE.

Definition test_extra : list (string * Module_) :=
  let sample_args_pure :=
    PreSampleArgs 1 1 _ENTROPY_EXTRAPOLATE.1 _ENTROPY_EXTRAPOLATE.2 in
  [ ("polynomial_roots_big",
     λ fuel, polynomial_roots fuel None sample_args_pure None) ].

End Registry.

(** [PreSampleArgs] for the concrete collaborators, whose [peel] hands the
    budget on as it is: the least number of modules and the largest
    entropy. *)
Definition tape_PreSampleArgs
    (min_modules max_modules : Z) (min_entropy max_entropy : Qc)
    : @Budget tape :=
  {| num_modules := min_modules; entropy := max_entropy |}.

End Algebra.

Module GenerateToFile.

(** One element of the JSON output: [{'question': ..., 'answer': ...}]. *)
Record entry : Type := {
  question : string;
  answer : string
}.

(** What one write call puts into a file. *)
Inductive written : Type :=
  | JsonList (dataset_list : list entry)
  | JsonDict (dataset_dict : entry)
  | Text (s : string).

(** The effects of [main] on its surroundings, in the order they happen. *)
Inductive io_event : Type :=
  | MakeDirs (path : string)
  | Print (line : string)
  | Open (path : string)
  | Write (path : string) (data : written).

(** What [main] takes from the [generate] module and the flags, as they are
    once [generate.init_modules()] has run: the modules of each regime in
    iteration order, the number of problems per module of each regime, the
    sampler with the state of its random generators, and the output
    directory ([os.path.expanduser(FLAGS.output_dir)]). *)
Class Generate : Type := {
  Module_ : Type;
  Sampler : Type;
  filtered_modules : list (string * list (string * Module_));
  counts : gmap string Z;
  (** [generate.sample_from_module(module)], as [str(problem.question)] and
      [str(problem.answer)] *)
  sample_from_module : Module_ → Sampler → (string * string) * Sampler;
  output_dir : string
}.

(** The state [main] runs in; the trace has the latest event first. *)
Record world `{Generate} : Type := {
  sampler : Sampler;
  trace : list io_event
}.

Section Main.
Context `{Generate}.

Local Abbreviation IO := (M world).

Definition emit (ev : io_event) : IO unit :=
  λ w, Ok tt {| sampler := sampler w; trace := ev :: trace w |}.

Definition sample (module : Module_) : IO (string * string) :=
  λ w, Ok (sample_from_module module (sampler w)).1
         {| sampler := (sample_from_module module (sampler w)).2;
            trace := trace w |}.

(** [a.endswith('/')] *)
Fixpoint ends_with_sep (a : string) : bool :=
  match a with
  | EmptyString => false
  | String c EmptyString => bool_decide (c = "/"%char)
  | String _ a' => ends_with_sep a'
  end.

(** [os.path.join(a, b)] on POSIX paths. *)
Definition os_path_join (a b : string) : string :=
  match b with
  | String c _ =>
      if bool_decide (c = "/"%char) then b
      else if bool_decide (a = EmptyString) then b
      else if ends_with_sep a then a +:+ b
      else a +:+ "/" +:+ b
  | EmptyString =>
      if bool_decide (a = EmptyString) then b
      else if ends_with_sep a then a +:+ b
      else a +:+ "/" +:+ b
  end.

(** The names bound to a dictionary at module level in
    [generate_to_file.py]: there is none ([os], [app], [flags], [logging],
    [generate], [six], [json], [FLAGS] and [main] are all it binds). *)
Definition module_globals : gmap string entry := ∅.

(** Reading a name that is not a local of [main]. *)
Definition load_global (name : string) : IO entry :=
  match module_globals !! name with
  | Some d => mret d
  | None => raise (NameError name)
  end.

(** [generate.counts[regime]] *)
Definition counts_getitem (regime : string) : IO Z :=
  match counts !! regime with
  | Some n => mret n
  | None => raise (KeyError regime)
  end.

(** The body of the loop over the modules of a regime; [dataset_list] is
    the list [main] creates before its loops. *)
Definition write_module
    (save_format : string) (regime_dir : string) (per_module : Z)
    (module_name : string) (module : Module_) (dataset_list : list entry)
    : IO (list entry) :=
  _ ← emit (Print module_name);
  '(path, dataset_list) ←
    (if bool_decide (save_format = "json") then
       let path := os_path_join regime_dir (module_name +:+ ".json") in
       dataset_list ← for_range (Z.to_nat per_module) (λ dataset_list,
           '(q, a) ← sample module;
           mret (dataset_list ++ [{| question := q; answer := a |}]))
         dataset_list;
       _ ← emit (Open path);
       _ ← emit (Write path (JsonList dataset_list));
       mret (path, dataset_list)
     else if bool_decide (save_format = "jsonl") then
       let path := os_path_join regime_dir (module_name +:+ ".jsonl") in
       _ ← emit (Open path);
       _ ← for_range (Z.to_nat per_module) (λ _ : unit,
           '(q, a) ← sample module;
           dataset_dict ← load_global "dataset_dict";
           let dataset_dict := {| question := q; answer := a |} in
           _ ← emit (Write path (JsonDict dataset_dict));
           emit (Write path (Text (String "010"%char EmptyString))))
         tt;
       mret (path, dataset_list)
     else if bool_decide (save_format = "txt") then
       let path := os_path_join regime_dir (module_name +:+ ".txt") in
       _ ← emit (Open path);
       _ ← for_range (Z.to_nat per_module) (λ _ : unit,
           '(q, a) ← sample module;
           _ ← emit (Write path (Text (q +:+ String "010"%char EmptyString)));
           emit (Write path (Text (a +:+ String "010"%char EmptyString))))
         tt;
       mret (path, dataset_list)
     else raise (ValueError ("Unknown save format: " +:+ save_format)));
  _ ← emit (Print ("Wrote " +:+ path +:+ " with " +:+ pretty per_module
                   +:+ " examples"));
  mret dataset_list.

(** The body of the loop over the regimes. *)
Definition write_regime
    (save_format : string) (regime : string)
    (flat_modules : list (string * Module_)) (dataset_list : list entry)
    : IO (list entry) :=
  let regime_dir := os_path_join output_dir regime in
  _ ← emit (MakeDirs regime_dir);
  per_module ← counts_getitem regime;
  _ ← emit (Print (pretty per_module));
  for_in flat_modules
    (λ '(module_name, module),
       write_module save_format regime_dir per_module module_name module)
    dataset_list.

(** [main(save_format)]; the [logging.info] calls are left out. *)
Definition main (save_format : string) : IO unit :=
  _ ← emit (MakeDirs output_dir);
  let dataset_list := [] in
  _ ← for_in filtered_modules
        (λ '(regime, flat_modules),
           write_regime save_format regime flat_modules)
        dataset_list;
  mret tt.

(** *** Notions the properties are stated with *)

(** What was written into files, oldest first, from a trace. *)
Definition writes (t : list io_event) : list (string * written) :=
  omap (λ ev, match ev with
              | Write path data => Some (path, data)
              | _ => None
              end) (reverse t).

(** The files opened, oldest first, from a trace. *)
Definition opens (t : list io_event) : list string :=
  omap (λ ev, match ev with Open path => Some path | _ => None end) (reverse t).

(** A module as [main] comes to it: its regime, its name, the module and
    the number of problems asked of it. *)
Record job : Type := {
  job_regime : string;
  job_name : string;
  job_module : Module_;
  job_count : nat
}.

(** The modules of a regime asked for [per_module] problems each. *)
Definition regime_jobs
    (regime : string) (per_module : Z) (flat_modules : list (string * Module_))
    : list job :=
  map (λ '(module_name, module),
         {| job_regime := regime;
            job_name := module_name;
            job_module := module;
            job_count := Z.to_nat per_module |})
    flat_modules.

(** The modules of the given regimes in the order [main] takes them. *)
Definition schedule_of (regimes : list (string * list (string * Module_)))
    : list job :=
  flat_map (λ '(regime, flat_modules),
      regime_jobs regime (default 0%Z (counts !! regime)) flat_modules)
    regimes.

Definition schedule : list job := schedule_of filtered_modules.

(** The file [main] opens for a module. *)
Definition job_path (extension : string) (j : job) : string :=
  os_path_join (os_path_join output_dir (job_regime j))
    (job_name j +:+ extension).

(** The entries of [n] problems sampled in a row from a module, and the
    sampler's state after them. *)
Fixpoint sample_entries (module : Module_) (n : nat) (s : Sampler)
    : list entry * Sampler :=
  match n with
  | O => ([], s)
  | S n' =>
      let r := sample_from_module module s in
      let rest := sample_entries module n' r.2 in
      ({| question := r.1.1; answer := r.1.2 |} :: rest.1, rest.2)
  end.

(** The JSON files [main] writes for the given jobs, oldest first, each
    with the entries it holds, when the accumulated list is [dataset_list]
    and the sampler is in state [s] before the first job. *)
Fixpoint json_files (jobs : list job) (dataset_list : list entry) (s : Sampler)
    : list (string * list entry) :=
  match jobs with
  | [] => []
  | j :: jobs' =>
      let r := sample_entries (job_module j) (job_count j) s in
      (job_path ".json" j, dataset_list ++ r.1)
      :: json_files jobs' (dataset_list ++ r.1) r.2
  end.

(** The accumulated list and the sampler's state after the given jobs. *)
Fixpoint after_jobs (jobs : list job) (dataset_list : list entry) (s : Sampler)
    : list entry * Sampler :=
  match jobs with
  | [] => (dataset_list, s)
  | j :: jobs' =>
      let r := sample_entries (job_module j) (job_count j) s in
      after_jobs jobs' (dataset_list ++ r.1) r.2
  end.

(** The jobs before the first one that is asked for at least one problem,
    and that job. *)
Fixpoint first_asked (jobs : list job) : option (list job * job) :=
  match jobs with
  | [] => None
  | j :: jobs' =>
      if decide (0 < job_count j)%nat then Some ([], j)
      else
        match first_asked jobs' with
        | Some (before, j') => Some (j :: before, j')
        | None => None
        end
  end.

(** Every regime has its number of problems per module. *)
Definition counts_complete : Prop :=
  ∀ regime flat_modules,
    (regime, flat_modules) ∈ filtered_modules → is_Some (counts !! regime).

(** How the loops of the JSON-lines branch end over the given jobs, started
    in world [w]: with the [NameError] at the first job asked for a problem,
    or normally when there is none. *)
Definition jsonl_run
    {A} (jobs : list job) (w : world) (result : A) (o : outcome world A)
    : Prop :=
  ∃ new,
    writes new = []
    ∧ match first_asked jobs with
      | Some (before, j) =>
          opens new = map (job_path ".jsonl") (before ++ [j])
          ∧ o = Raise (NameError "dataset_dict")
                  {| sampler := (sample_from_module (job_module j)
                                   (sampler w)).2;
                     trace := new ++ trace w |}
      | None =>
          opens new = map (job_path ".jsonl") jobs
          ∧ o = Ok result {| sampler := sampler w; trace := new ++ trace w |}
      end.

(** The two lines the text format writes for a problem. *)
Definition entry_lines (e : entry) : list written :=
  [ Text (question e +:+ String "010"%char EmptyString);
    Text (answer e +:+ String "010"%char EmptyString) ].

(** What the text format writes for the given jobs, oldest first, when the
    sampler is in state [s] before the first job. *)
Fixpoint txt_writes (jobs : list job) (s : Sampler)
    : list (string * written) :=
  match jobs with
  | [] => []
  | j :: jobs' =>
      let r := sample_entries (job_module j) (job_count j) s in
      map (pair (job_path ".txt" j)) (flat_map entry_lines r.1)
      ++ txt_writes jobs' r.2
  end.

(** The path starts with the separator. *)
Definition is_absolute (path : string) : Prop :=
  ∃ rest, path = String "/"%char rest.

(** What [os.path.join] puts between a first part and a relative second
    part: a separator, unless the first part is empty or ends with one. *)
Definition path_sep (a : string) : string :=
  if bool_decide (a = EmptyString) || ends_with_sep a then EmptyString
  else "/".

(** No regime and no module is named by an absolute path. *)
Definition relative_names : Prop :=
  ∀ regime flat_modules,
    (regime, flat_modules) ∈ filtered_modules →
    ¬ is_absolute regime
    ∧ ∀ module_name module,
        (module_name, module) ∈ flat_modules → ¬ is_absolute module_name.

End Main.

(** *** A concrete [generate] module

    Two regimes, a training one with two modules and a test one with one,
    each with its number of problems per module; the sampler numbers the
    problems it hands out. *)
Definition two_regimes (per_train_module per_test_module : Z) : Generate := {|
  Module_ := string;
  Sampler := nat;
  filtered_modules :=
    [ ("train", [("algebra__linear_1d", "linear_1d");
                 ("algebra__polynomial_roots", "polynomial_roots")]);
      ("interpolate", [("algebra__linear_1d", "linear_1d")]) ];
  counts := {[ "train" := per_train_module;
               "interpolate" := per_test_module ]};
  sample_from_module := λ module n,
    ((module +:+ " question " +:+ pretty n, "answer " +:+ pretty n), S n);
  output_dir := "out"
|}.

(** The start of a run of the concrete [generate] module. *)
Definition two_regimes_start (per_train_module per_test_module : Z)
    : world (H := two_regimes per_train_module per_test_module) :=
  @Build_world (two_regimes per_train_module per_test_module) 0%nat [].

(** The same regimes, the test regime having no count. *)
Definition train_count_only (per_train_module : Z) : Generate := {|
  Module_ := string;
  Sampler := nat;
  filtered_modules :=
    [ ("train", [("algebra__linear_1d", "linear_1d");
                 ("algebra__polynomial_roots", "polynomial_roots")]);
      ("interpolate", [("algebra__linear_1d", "linear_1d")]) ];
  counts := {[ "train" := per_train_module ]};
  sample_from_module := λ module n,
    ((module +:+ " question " +:+ pretty n, "answer " +:+ pretty n), S n);
  output_dir := "out"
|}.

End GenerateToFile.

(** * Running the monad *)

Lemma bind_Ok {W A B} (m : M W A) (k : A → M W B) w a w' :
  m w = Ok a w' → (m ≫= k) w = k a w'.
Proof. intros Hm. unfold mbind, M_bind, bind. by rewrite Hm. Qed.

Lemma bind_Ok' {W A B} (m : M W A) (k : A → M W B) w a w' :
  m w = Ok a w' → bind m k w = k a w'.
Proof. apply bind_Ok. Qed.

Lemma bind_Raise {W A B} (m : M W A) (k : A → M W B) w e w' :
  m w = Raise e w' → (m ≫= k) w = Raise e w'.
Proof. intros Hm. unfold mbind, M_bind, bind. by rewrite Hm. Qed.

Lemma bind_OutOfFuel {W A B} (m : M W A) (k : A → M W B) w w' :
  m w = OutOfFuel w' → (m ≫= k) w = OutOfFuel w'.
Proof. intros Hm. unfold mbind, M_bind, bind. by rewrite Hm. Qed.

Lemma bind_Raise' {W A B} (m : M W A) (k : A → M W B) w e w' :
  m w = Raise e w' → bind m k w = Raise e w'.
Proof. apply bind_Raise. Qed.

(** Unfolds one layer of the monad's operations. *)
Ltac unfold_monad :=
  unfold mbind, M_bind, bind, mret, M_ret, ret, raise, out_of_fuel.
Ltac unfold_monad_in H :=
  unfold mbind, M_bind, bind, mret, M_ret, ret, raise, out_of_fuel in H.

(** * Properties of the algebra generators *)

Module AlgebraTheory.
Import Algebra.

(** ** Arithmetic *)

Lemma Qcmax_ge_l (x y : Qc) : x ≤ Qcmax x y.
Proof.
  unfold Qcmax. destruct (decide (x ≤ y)); [done | apply Qcle_refl].
Qed.

Lemma lcm_list_pos (ds : list Z) :
  Forall (λ d, 0 < d)%Z ds → (0 < lcm_list ds)%Z.
Proof.
  induction 1 as [| d ds Hd _ IH]; simpl; [lia |].
  pose proof (Z.lcm_nonneg d (lcm_list ds)) as Hnn.
  destruct (decide (Z.lcm d (lcm_list ds) = 0%Z)) as [H0 | ]; [| lia].
  apply Z.lcm_eq_0 in H0. lia.
Qed.

Lemma lcm_denominators_ne_0 (coeffs : list Qc) :
  Qc_of_Z (lcm_list (map denom coeffs)) ≠ 0.
Proof.
  assert (0 < lcm_list (map denom coeffs))%Z as Hpos.
  { apply lcm_list_pos, Forall_forall. intros d Hd.
    apply list_elem_of_fmap in Hd as (c & -> & _). unfold denom. lia. }
  rewrite <- Z2Qc_inj_0. intros Heq%Z2Qc_inj. lia.
Qed.

(** ** Expanding a product of linear factors *)

Lemma length_mul_linear (root : Qc) (p : list Qc) :
  length (mul_linear root p) = S (length p).
Proof.
  unfold mul_linear. rewrite length_zip_with, length_app, length_map.
  cbn [length]. lia.
Qed.

Lemma length_expand_product (roots : list Qc) :
  length (expand_product roots) = S (length roots).
Proof.
  induction roots as [| r roots IH]; simpl; [done |].
  by rewrite length_mul_linear, IH.
Qed.

Lemma length_all_coeffs (roots : list Qc) :
  length (all_coeffs (expand_product roots)) = (length roots + 1)%nat.
Proof.
  unfold all_coeffs. rewrite length_rev, length_expand_product. lia.
Qed.

Lemma eval_poly_zip_with_plus (p q : list Qc) (x : Qc) :
  length p = length q →
  eval_poly (zip_with Qcplus p q) x = eval_poly p x + eval_poly q x.
Proof.
  revert q. induction p as [| a p IH]; intros [| b q] Hlen; try done.
  cbn [eval_poly foldr zip_with length] in *.
  fold (eval_poly (zip_with Qcplus p q) x) (eval_poly p x) (eval_poly q x).
  rewrite IH by lia. ring.
Qed.

Lemma eval_poly_snoc_0 (p : list Qc) (x : Qc) :
  eval_poly (p ++ [0]) x = eval_poly p x.
Proof.
  induction p as [| a p IH]; cbn [eval_poly foldr app].
  - ring.
  - fold (eval_poly (p ++ [0]) x) (eval_poly p x). by rewrite IH.
Qed.

Lemma eval_poly_map_mult (c : Qc) (p : list Qc) (x : Qc) :
  eval_poly (map (Qcmult c) p) x = c * eval_poly p x.
Proof.
  induction p as [| a p IH]; cbn [eval_poly foldr map].
  - ring.
  - fold (eval_poly (map (Qcmult c) p) x) (eval_poly p x). rewrite IH. ring.
Qed.

Lemma eval_poly_mul_linear (root : Qc) (p : list Qc) (x : Qc) :
  eval_poly (mul_linear root p) x = (x - root) * eval_poly p x.
Proof.
  unfold mul_linear. rewrite eval_poly_zip_with_plus.
  - rewrite eval_poly_snoc_0, eval_poly_map_mult. cbn [eval_poly foldr].
    fold (eval_poly p x). ring.
  - rewrite length_app, length_map. cbn [length]. lia.
Qed.

(** The expanded product has the value of the product. *)
Lemma eval_poly_expand_product (roots : list Qc) (x : Qc) :
  eval_poly (expand_product roots) x = prod_linear roots x.
Proof.
  induction roots as [| r roots IH].
  - cbn [expand_product prod_linear foldr eval_poly]. ring.
  - cbn [expand_product prod_linear foldr].
    fold (expand_product roots) (prod_linear roots x).
    by rewrite eval_poly_mul_linear, IH.
Qed.

(** The expanded product vanishes exactly at the roots. *)
Lemma eval_poly_expand_product_0 (roots : list Qc) (x : Qc) :
  eval_poly (expand_product roots) x = 0 ↔ x ∈ roots.
Proof.
  induction roots as [| r roots IH].
  - cbn [expand_product foldr eval_poly]. split; [| by intros ?%elem_of_nil].
    intros Heq. exfalso. revert Heq.
    replace (1 + x * 0) with 1 by ring. discriminate.
  - cbn [expand_product foldr]. fold (expand_product roots).
    rewrite eval_poly_mul_linear, elem_of_cons, <- IH. split.
    + intros [Hx | Hp]%Qcmult_integral; [left | by right].
      rewrite <- (Qcplus_0_l r), <- Hx. ring.
    + intros [-> | ->]; ring.
Qed.

Lemma eval_poly_scaled (p : list Qc) (scale lcm x : Qc) :
  eval_poly (map (λ coeff, coeff * scale * lcm) p) x
  = eval_poly p x * (scale * lcm).
Proof.
  induction p as [| a p IH]; cbn [eval_poly foldr map].
  - ring.
  - fold (eval_poly (map (λ coeff, coeff * scale * lcm) p) x) (eval_poly p x).
    rewrite IH. ring.
Qed.

Lemma mul_linear_snoc (root : Qc) (p : list Qc) (a : Qc) :
  ∃ q, mul_linear root (p ++ [a]) = q ++ [a].
Proof.
  unfold mul_linear. rewrite map_app. cbn [map].
  change (0 :: p ++ [a]) with ((0 :: p) ++ [a]).
  rewrite zip_with_app by (rewrite length_app, length_map; cbn [length]; lia).
  eexists. f_equal. cbn [zip_with]. f_equal. ring.
Qed.

(** The expanded product is monic. *)
Lemma expand_product_monic (roots : list Qc) :
  ∃ q, expand_product roots = q ++ [1].
Proof.
  induction roots as [| r roots [q IH]].
  - by exists [].
  - cbn [expand_product foldr]. fold (expand_product roots). rewrite IH.
    apply mul_linear_snoc.
Qed.

Lemma divide_lcm_list (d : Z) (ds : list Z) :
  d ∈ ds → (d | lcm_list ds)%Z.
Proof.
  induction ds as [| d0 ds IH]; [by intros ?%elem_of_nil |].
  intros [-> | Hin]%elem_of_cons; cbn [lcm_list foldr].
  - apply Z.divide_lcm_l.
  - etransitivity; [by apply IH | apply Z.divide_lcm_r].
Qed.

(** A rational times a multiple of its denominator is an integer. *)
Lemma Qc_times_denominator_multiple (c : Qc) (m : Z) :
  (denom c | m)%Z → ∃ z : Z, c * Qc_of_Z m = Qc_of_Z z.
Proof.
  intros [k ->]. exists (Qnum (this c) * k)%Z.
  apply Qc_is_canon. unfold denom. destruct c as [[n d] Hc].
  cbn [this Qcmult Qc_of_Z Q2Qc Qnum Qden]. rewrite Qred_correct.
  unfold Qeq, Qmult, inject_Z. cbn [Qnum Qden]. lia.
Qed.

Lemma expand_product_times_lcm_integer (roots : list Qc) :
  Forall (λ coeff,
            ∃ z : Z,
              coeff * Qc_of_Z (lcm_list (map denom (expand_product roots)))
              = Qc_of_Z z)
    (expand_product roots).
Proof.
  apply Forall_forall. intros coeff Hin.
  apply Qc_times_denominator_multiple, divide_lcm_list.
  apply list_elem_of_fmap. by exists coeff.
Qed.

Section WithCollaborators.
Context `{Collaborators}.

(** ** The scale loop *)

Lemma scale_draw_S (k : nat) (e : Qc) (w : world) :
  scale_draw (S k) e w
  = scale_draw k e (final_world (integer_or_rational e true w)).
Proof. reflexivity. Qed.

Lemma sample_scale_spec (fuel : nat) (e : Qc) (w : world) :
  match sample_scale fuel e w with
  | Ok scale w' =>
      ∃ k, (k < fuel)%nat
        ∧ (∀ j, (j < k)%nat → scale_draw j e w = 0)
        ∧ scale = scale_draw k e w ∧ scale ≠ 0
        ∧ w' = after_scale_draws (S k) e w
  | Raise _ _ => False
  | OutOfFuel w' =>
      (∀ j, (j < fuel)%nat → scale_draw j e w = 0)
      ∧ w' = after_scale_draws fuel e w
  end.
Proof.
  revert w. induction fuel as [| fuel IH]; intros w.
  - simpl. split; [intros j Hj; lia | done].
  - simpl. unfold_monad. unfold integer_or_rational at 1, sample.
    fold (integer_or_rational e true).
    set (w1 := {| rng := _; calls := _ |}).
    assert (w1 = final_world (integer_or_rational e true w)) as Hw1 by done.
    destruct (decide (_ ≠ 0)) as [Hnz | Hz].
    + exists 0%nat. split_and!; [lia | intros j Hj; lia | done | done | done].
    + apply dec_stable in Hz. specialize (IH w1).
      destruct (sample_scale fuel e w1) as [scale w' | | w'].
      * destruct IH as (k & Hk & Hzero & -> & Hnz & ->).
        exists (S k). split_and!; [lia | | done | done | done].
        intros [| j] Hj; [done |]. rewrite scale_draw_S, <- Hw1. apply Hzero. lia.
      * done.
      * destruct IH as [Hzero ->]. split; [| by rewrite Hw1].
        intros [| j] Hj; [done |]. rewrite scale_draw_S, <- Hw1. apply Hzero. lia.
Qed.

Lemma sample_scale_first (k fuel : nat) (e : Qc) (w : world) :
  (∀ j, (j < k)%nat → scale_draw j e w = 0) →
  scale_draw k e w ≠ 0 →
  (k < fuel)%nat →
  sample_scale fuel e w = Ok (scale_draw k e w) (after_scale_draws (S k) e w).
Proof.
  intros Hzero Hnz Hk. pose proof (sample_scale_spec fuel e w) as Hspec.
  destruct (sample_scale fuel e w) as [scale w' | | w'].
  - destruct Hspec as (k' & Hk' & Hzero' & -> & Hnz' & ->).
    destruct (Nat.lt_trichotomy k k') as [Hlt | [-> | Hgt]]; [| done |].
    + by specialize (Hzero' k Hlt).
    + by specialize (Hzero k' Hgt).
  - done.
  - destruct Hspec as [Hzero' _]. by specialize (Hzero' k Hk).
Qed.


(** ** [_polynomial_coeffs_with_roots] *)

(** Without a root there is no polynomial to take the coefficients of. *)
Lemma polynomial_coeffs_without_roots
    (fuel : nat) (scale_entropy : Qc) (w : world) :
  _polynomial_coeffs_with_roots fuel [] scale_entropy w
  = Raise GeneratorsNeeded w.
Proof. reflexivity. Qed.

(** With a root, the assertion on the number of coefficients never fires,
    and the coefficients are those of the expanded product. *)
Lemma polynomial_coeffs_with_roots_unfold
    (fuel : nat) (roots : list Qc) (scale_entropy : Qc) :
  roots ≠ [] →
  _polynomial_coeffs_with_roots fuel roots scale_entropy
  = (scale ← (if decide (0 < scale_entropy)
              then sample_scale fuel scale_entropy else mret 1);
     mret (map (λ coeff, coeff * scale
                  * Qc_of_Z (lcm_list (map denom (expand_product roots))))
             (expand_product roots))).
Proof.
  intros Hroots. unfold _polynomial_coeffs_with_roots.
  destruct roots as [| root roots]; [done |].
  pose proof (length_all_coeffs (root :: roots)) as Hlen.
  set (all := root :: roots) in *.
  change (sympy_Poly all) with (ret (expand_product all) : M world (list Qc)).
  change (ret (expand_product all) ≫= ?k) with (k (expand_product all)).
  cbv beta zeta.
  destruct (decide (length (all_coeffs (expand_product all)) = _))
    as [_ | Hne]; [| done].
  unfold all_coeffs. rewrite rev_involutive. reflexivity.
Qed.

(** Whatever [_polynomial_coeffs_with_roots] returns is scaled by a factor
    that is not zero; with a root it does not raise. *)
Lemma polynomial_coeffs_with_roots_outcome
    (fuel : nat) (roots : list Qc) (scale_entropy : Qc) (w : world) :
  roots ≠ [] →
  match _polynomial_coeffs_with_roots fuel roots scale_entropy w with
  | Ok coeffs _ =>
      ∃ scale,
        scale ≠ 0
        ∧ scale * Qc_of_Z (lcm_list (map denom (expand_product roots))) ≠ 0
        ∧ coeffs
          = map (λ coeff,
                   coeff * scale
                   * Qc_of_Z (lcm_list (map denom (expand_product roots))))
              (expand_product roots)
  | Raise _ _ => False
  | OutOfFuel _ =>
      0 < scale_entropy
      ∧ ∀ j, (j < fuel)%nat → scale_draw j scale_entropy w = 0
  end.
Proof.
  intros Hroots.
  pose proof (lcm_denominators_ne_0 (expand_product roots)) as Hlcm.
  rewrite polynomial_coeffs_with_roots_unfold by done.
  destruct (decide (0 < scale_entropy)) as [Hpos | Hle].
  - pose proof (sample_scale_spec fuel scale_entropy w) as Hspec.
    unfold_monad.
    destruct (sample_scale fuel scale_entropy w) as [scale w' | | w'].
    + destruct Hspec as (k & _ & _ & _ & Hnz & _).
      exists scale. split_and!; [done | | done].
      intros [? | ?]%Qcmult_integral; done.
    + done.
    + by destruct Hspec.
  - exists 1. split_and!; [done | | done].
    by rewrite Qcmult_1_l.
Qed.

(** C7: [_polynomial_coeffs_with_roots] never uses a zero scale and never
    raises for one.  With [scale_entropy] not above 0 the scale is 1 and
    nothing is drawn; with [scale_entropy > 0] the scale is the first drawn
    value that is not zero, the zero draws before it being discarded; and
    whatever list is returned is the expanded product of the [x - root]
    times a factor [scale * lcm] that is not zero: its value at any [x] is
    that factor times the product of the [x - root].  With at least one
    root the function does not raise at all, and the only way not to return
    is that every drawn scale was zero for as long as the loop was followed;
    without any root [sympy.Poly] raises before a scale is looked at. *)
Theorem polynomial_coeffs_scale_never_zero
    (roots : list Qc) (scale_entropy : Qc) (w : world) :
  let lcm := Qc_of_Z (lcm_list (map denom (expand_product roots))) in
  let scaled (scale : Qc) :=
    map (λ coeff, coeff * scale * lcm) (expand_product roots) in
  lcm ≠ 0
  ∧ (∀ scale x,
       eval_poly (scaled scale) x = scale * lcm * prod_linear roots x)
  ∧ (roots = [] → ∀ fuel,
       _polynomial_coeffs_with_roots fuel roots scale_entropy w
       = Raise GeneratorsNeeded w)
  ∧ (roots ≠ [] →
       (¬ 0 < scale_entropy → ∀ fuel,
          _polynomial_coeffs_with_roots fuel roots scale_entropy w
          = Ok (scaled 1) w)
       ∧ (0 < scale_entropy → ∀ k fuel,
            (∀ j, (j < k)%nat → scale_draw j scale_entropy w = 0) →
            scale_draw k scale_entropy w ≠ 0 →
            (k < fuel)%nat →
            _polynomial_coeffs_with_roots fuel roots scale_entropy w
            = Ok (scaled (scale_draw k scale_entropy w))
                 (after_scale_draws (S k) scale_entropy w))
       ∧ (∀ fuel,
            match _polynomial_coeffs_with_roots fuel roots scale_entropy w with
            | Ok coeffs _ =>
                ∃ scale, scale ≠ 0 ∧ scale * lcm ≠ 0 ∧ coeffs = scaled scale
            | Raise _ _ => False
            | OutOfFuel _ =>
                0 < scale_entropy
                ∧ ∀ j, (j < fuel)%nat → scale_draw j scale_entropy w = 0
            end)).
Proof.
  intros lcm scaled.
  split_and!.
  - apply lcm_denominators_ne_0.
  - intros scale x. unfold scaled.
    rewrite eval_poly_scaled, eval_poly_expand_product. ring.
  - intros -> fuel. apply polynomial_coeffs_without_roots.
  - intros Hroots. split_and!.
    + intros Hle fuel. rewrite polynomial_coeffs_with_roots_unfold by done.
      by rewrite decide_False.
    + intros Hpos k fuel Hzero Hnz Hk.
      rewrite polynomial_coeffs_with_roots_unfold, decide_True by done.
      by erewrite bind_Ok by by apply sample_scale_first.
    + intros fuel. by apply polynomial_coeffs_with_roots_outcome.
Qed.


(** ** [_sample_roots] *)

Lemma choice_Ok {A} (l : list A) (w : world) :
  l ≠ [] →
  ∃ x, x ∈ l
    ∧ choice l w
      = Ok x {| rng := (random_choice_index (length l) (rng w)).2;
                calls := calls w |}.
Proof.
  intros Hl.
  pose proof (random_choice_index_range (length l) (rng w)) as Hlt.
  destruct (lookup_lt_is_Some_2 l (random_choice_index (length l) (rng w)).1)
    as [x Hx].
  { apply Hlt. destruct l; [done | simpl; lia]. }
  exists x. split; [by eapply list_elem_of_lookup_2 |].
  unfold choice. erewrite bind_Ok by reflexivity.
  unfold getitem. by rewrite Hx.
Qed.

(** Sampling the roots one by one never fails and logs one call each. *)
Lemma sample_each_root (entropies : list Qc) (w : world) :
  ∃ roots new w',
    for_each (λ root_entropy,
        u ← random;
        if decide (u < Q2Qc (1 # 10))
        then non_integer_rational root_entropy true
        else integer root_entropy true) entropies w
    = Ok roots w'
    ∧ length roots = length entropies
    ∧ calls_since w w' new
    ∧ length new = length entropies.
Proof.
  revert w. induction entropies as [| e entropies IH]; intros w.
  - exists [], [], w. by split_and!.
  - cbn [for_each].
    assert (∃ root ev w2,
      (u ← random;
       if decide (u < Q2Qc (1 # 10))
       then non_integer_rational e true else integer e true) w
      = Ok root w2 ∧ calls w2 = ev :: calls w) as (root & ev & w2 & Hroot & Hev).
    { erewrite bind_Ok by reflexivity. destruct (decide _); by eexists _, _, _. }
    destruct (IH w2) as (roots & new & w' & Hrun & Hlen & Hnew & Hlen').
    exists (root :: roots), (new ++ [ev]), w'. split_and!.
    + erewrite bind_Ok' by exact Hroot. by erewrite bind_Ok' by exact Hrun.
    + simpl. by rewrite Hlen.
    + unfold calls_since in *. by rewrite Hnew, Hev, <- app_assoc.
    + rewrite length_app. simpl. lia.
Qed.

Lemma append_repeated_spec (n num_distinct : nat) (roots : list Qc) (w : world) :
  (0 < num_distinct ≤ length roots)%nat →
  ∃ repeated w',
    append_repeated n num_distinct roots w = Ok (roots ++ repeated) w'
    ∧ length repeated = n
    ∧ Forall (λ r, r ∈ take num_distinct roots) repeated
    ∧ calls w' = calls w.
Proof.
  revert roots w. induction n as [| n IH]; intros roots w Hnd.
  - exists [], w. rewrite app_nil_r. by split_and!.
  - cbn [append_repeated].
    destruct (choice_Ok (take num_distinct roots) w) as (root & Hroot & Hrun).
    { intros Hnil. apply (f_equal length) in Hnil.
      rewrite length_take in Hnil. simpl in Hnil. lia. }
    destruct (IH (roots ++ [root])
                {| rng := (random_choice_index
                             (length (take num_distinct roots)) (rng w)).2;
                   calls := calls w |})
      as (repeated & w' & Hrec & Hlen & Hin & Hcalls).
    { rewrite length_app. simpl. lia. }
    exists (root :: repeated), w'. split_and!.
    + erewrite bind_Ok by exact Hrun. by rewrite Hrec, <- app_assoc.
    + simpl. by rewrite Hlen.
    + constructor; [done |].
      by rewrite take_app_le in Hin by lia.
    + done.
Qed.

(** The run of [_sample_roots]: [num_roots] roots, of which the last
    [num_repeated] are copies among the first ones. *)
Lemma sample_roots_spec (entropy : Qc) (w : world) :
  ∃ (num_roots num_repeated : Z) (sampled repeated : list Qc)
    (new : list event) (w' : world),
    _sample_roots entropy w = Ok (sampled ++ repeated) w'
    ∧ (2 ≤ num_roots ≤ 5)%Z
    ∧ (0 ≤ num_repeated ≤ num_roots - 1)%Z
    ∧ (Qc_of_Z 4 < entropy → (num_repeated ≤ num_roots `quot` 2)%Z)
    ∧ length sampled = Z.to_nat (num_roots - num_repeated)
    ∧ length repeated = Z.to_nat num_repeated
    ∧ calls_since w w' new ∧ length new = length sampled
    ∧ Forall (λ r, r ∈ sampled) repeated.
Proof.
  unfold _sample_roots.
  erewrite bind_Ok by reflexivity. erewrite bind_Ok by reflexivity.
  cbv zeta. erewrite bind_Ok by reflexivity. cbn [rng calls].
  pose proof (random_randint_range 2 5 (rng w)) as Hroots.
  set (num_roots := (random_randint 2 5 (rng w)).1) in *.
  set (g1 := (random_randint 2 5 (rng w)).2).
  specialize (Hroots ltac:(lia)).
  pose proof (np_random_binomial_range (num_roots - 1)
                _POLY_PROBABILITY_REPEATED_ROOT g1) as Hbin.
  set (drawn := (np_random_binomial _ _ g1).1) in *.
  set (g2 := (np_random_binomial _ _ g1).2).
  specialize (Hbin ltac:(lia)).
  set (num_repeated := if decide (Qc_of_Z 4 < entropy) then _ else _).
  assert (0 ≤ num_repeated ≤ num_roots - 1)%Z as Hrep.
  { unfold num_repeated. destruct (decide _); [| lia].
    pose proof (Z.quot_pos num_roots 2). lia. }
  pose proof (np_random_dirichlet_length
                (Z.to_nat (num_roots - num_repeated)) g2) as Hweights.
  set (weights := (np_random_dirichlet _ g2).1) in *.
  set (w3 := {| rng := _; calls := _ |}).
  destruct (sample_each_root (map (Qcmult entropy) weights) w3)
    as (sampled & new & w4 & Hsampled & Hlen & Hnew & Hlen').
  rewrite length_map, Hweights in Hlen, Hlen'.
  erewrite bind_Ok by exact Hsampled.
  destruct (append_repeated_spec (Z.to_nat num_repeated)
              (Z.to_nat (num_roots - num_repeated)) sampled w4)
    as (repeated & w' & Hrun & Hlenr & Hin & Hcalls); [lia |].
  rewrite take_ge in Hin by lia.
  exists num_roots, num_repeated, sampled, repeated, new, w'.
  split_and!; [done | lia | lia | lia | lia | | done | done | | lia | done].
  - intros Hhigh. unfold num_repeated. rewrite decide_True by done. lia.
  - unfold calls_since in *. by rewrite Hcalls, Hnew.
Qed.

Lemma sample_roots_nonempty (entropy : Qc) (w w' : world) (roots : list Qc) :
  _sample_roots entropy w = Ok roots w' → roots ≠ [].
Proof.
  destruct (sample_roots_spec entropy w)
    as (num_roots & num_repeated & sampled & repeated & new & w1 & Hrun
        & Hroots & Hrep & _ & Hlen & _).
  rewrite Hrun. intros [= <- _] Hnil. apply (f_equal length) in Hnil.
  rewrite length_app, Hlen in Hnil. simpl in Hnil. lia.
Qed.

(** C4: [_sample_roots] returns between 2 and 5 roots: first the freshly
    sampled ones (at least one, each logged as one sampler call), then the
    repeated ones, each a copy of a sampled one; and when the entropy is
    above 4 the repeated roots are at most [floor(num_roots / 2)].
    [polynomial_roots] takes its roots from one call of this function. *)
Theorem sample_roots_count (entropy : Qc) (w : world) :
  ∃ (sampled repeated : list Qc) (new : list event) (w' : world),
    _sample_roots entropy w = Ok (sampled ++ repeated) w'
    ∧ (2 ≤ length (sampled ++ repeated) ≤ 5)%nat
    ∧ (1 ≤ length sampled)%nat
    ∧ calls_since w w' new ∧ length new = length sampled
    ∧ Forall (λ r, r ∈ sampled) repeated
    ∧ (Qc_of_Z 4 < entropy →
       (length repeated ≤ length (sampled ++ repeated) `div` 2)%nat).
Proof.
  destruct (sample_roots_spec entropy w)
    as (num_roots & num_repeated & sampled & repeated & new & w' & Hrun
        & Hroots & Hrep & Hcap & Hlen & Hlenr & Hnew & Hlen' & Hin).
  exists sampled, repeated, new, w'. rewrite length_app, Hlen, Hlenr.
  split_and!; [done | lia | lia | lia | done | lia | done |].
  intros Hhigh. specialize (Hcap Hhigh).
  rewrite Z.quot_div_nonneg in Hcap by lia.
  assert (Z.to_nat (num_roots - num_repeated) + Z.to_nat num_repeated
          = Z.to_nat num_roots)%nat as -> by lia.
  apply Nat2Z.inj_le. rewrite Nat2Z.inj_div, !Z2Nat.id by lia. simpl. lia.
Qed.


(** ** Polynomial sequences *)

Lemma PolynomialSequence_init_spec
    (variable : Symbol) (entropy : Qc) (min_degree max_degree : Z)
    (w : world) :
  (min_degree ≤ max_degree)%Z →
  ∃ sequence w',
    PolynomialSequence_init variable entropy min_degree max_degree w
    = Ok sequence w'
    ∧ (min_degree ≤ _degree sequence ≤ max_degree)%Z
    ∧ _variable sequence = variable.
Proof.
  intros Hle. unfold PolynomialSequence_init.
  erewrite bind_Ok by reflexivity. erewrite bind_Ok by reflexivity.
  eexists _, _. split; [reflexivity |]. split; [| done].
  cbn [_degree]. by apply random_randint_range.
Qed.

(** C6: [sequence_next_term] and [sequence_nth_term] always return a
    problem.  The polynomial of the sequence is sampled with the degree
    [degree] that [random.randint(1, 3)] gave, and the question shows the
    first [num_terms] terms of the sequence, the values of the polynomial
    at 1, 2, ..., where [num_terms] is drawn between [degree + 2] (the
    sequence's [min_num_terms]) and [degree + 5]; for degree 1 at least 3
    terms are shown.  The answer is the term after the shown ones,
    respectively the polynomial itself. *)
Theorem sequence_questions_show_enough_terms
    (min_entropy max_entropy : Qc) (w : world) :
  let drawn := random_uniform min_entropy max_entropy (rng w) in
  let popped := Context_pop Context_new drawn.2 in
  let variable := popped.1.1 in
  let context := popped.1.2 in
  let degree := (random_randint 1 3 popped.2).1 in
  let sampled :=
    polynomials_sample_with_small_evaluation variable degree (degree + 2)
      drawn.1 (random_randint 1 3 popped.2).2 in
  let polynomial := sampled.1 in
  let counted := random_randint (degree + 2) (degree + 2 + 3) sampled.2 in
  let num_terms := counted.1 in
  let shown :=
    map (λ n, sympy_subs polynomial variable (Z.of_nat n + 1))
      (seq 0 (Z.to_nat num_terms)) in
  (1 ≤ degree ≤ 3)%Z
  ∧ (degree + 2 ≤ num_terms ≤ degree + 5)%Z
  ∧ Z.of_nat (length shown) = num_terms
  ∧ (degree = 1%Z → (3 ≤ length shown)%nat)
  ∧ (∃ template,
       template ∈ [ "What is next in {sequence}?";
                    "What comes next: {sequence}?";
                    "What is the next term in {sequence}?" ]
       ∧ sequence_next_term min_entropy max_entropy w
         = Ok {| question := {|
                   question_context := context;
                   question_template := template;
                   question_kwargs :=
                     [("sequence", NumberList (map VExpr shown))] |};
                 answer :=
                   VExpr (sympy_subs polynomial variable (num_terms + 1)) |}
              {| rng := (random_choice_index 3 counted.2).2;
                 calls := calls w |})
  ∧ sequence_nth_term min_entropy max_entropy w
    = Ok {| question := {|
              question_context := context;
              question_template :=
                "What is the {variable}'th term of {sequence}?";
              question_kwargs :=
                [("variable", VSymbol variable);
                 ("sequence", NumberList (map VExpr shown))] |};
            answer := VExpr polynomial |}
         {| rng := (random_choice_index 1 counted.2).2; calls := calls w |}.
Proof.
  cbv zeta.
  destruct (random_uniform min_entropy max_entropy (rng w))
    as [entropy g0] eqn:Hdrawn.
  cbn [fst snd].
  destruct (Context_pop Context_new g0) as [[variable context] g1] eqn:Hpopped.
  cbn [fst snd].
  pose proof (random_randint_range 1 3 g1 ltac:(lia)) as Hdegree.
  destruct (random_randint 1 3 g1) as [degree g2] eqn:Hrand.
  cbn [fst snd] in *.
  destruct (polynomials_sample_with_small_evaluation variable degree
              (degree + 2) entropy g2) as [polynomial g3] eqn:Hsampled.
  cbn [fst snd].
  pose proof (random_randint_range (degree + 2) (degree + 2 + 3) g3
                ltac:(lia)) as Hnum.
  destruct (random_randint (degree + 2) (degree + 2 + 3) g3)
    as [num_terms g4] eqn:Hcounted.
  cbn [fst snd] in *.
  assert (∀ (A : Type) (k : Qc → Symbol → Context → _PolynomialSequence →
                              Z → M world A),
    (entropy ← uniform min_entropy max_entropy;
     '(variable, context) ← pop Context_new;
     sequence ← PolynomialSequence_init variable entropy 1 3;
     num_terms ← randint (min_num_terms sequence) (min_num_terms sequence + 3);
     k entropy variable context sequence num_terms) w
    = k entropy variable context
        {| _degree := degree; _variable := variable; _sympy := polynomial |}
        num_terms {| rng := g4; calls := calls w |}) as Hprefix.
  { intros A k.
    erewrite bind_Ok
      by (unfold uniform, draw; rewrite Hdrawn; cbn [fst snd]; reflexivity).
    erewrite bind_Ok
      by (unfold pop, draw; cbn [rng calls]; rewrite Hpopped; cbn [fst snd];
          reflexivity).
    cbv beta iota. erewrite bind_Ok.
    2:{ unfold PolynomialSequence_init.
        erewrite bind_Ok
          by (unfold randint, draw; cbn [rng calls]; rewrite Hrand;
              cbn [fst snd]; reflexivity).
        erewrite bind_Ok
          by (unfold draw; cbn [rng calls]; rewrite Hsampled; cbn [fst snd];
              reflexivity).
        reflexivity. }
    unfold min_num_terms. cbn [_degree].
    erewrite bind_Ok
      by (unfold randint, draw; cbn [rng calls]; rewrite Hcounted;
          cbn [fst snd]; reflexivity).
    reflexivity. }
  refine (conj _ (conj _ (conj _ (conj _ (conj _ _))))).
  - lia.
  - lia.
  - rewrite length_map, length_seq. lia.
  - intros ->. rewrite length_map, length_seq. lia.
  - unfold sequence_next_term. cbv zeta.
    rewrite (Hprefix _ (λ entropy variable context sequence num_terms, _)).
    match goal with |- context [choice ?l ≫= _] =>
      destruct (choice_Ok l {| rng := g4; calls := calls w |} ltac:(done))
        as (template & Hin & Htemplate)
    end.
    exists template. split; [exact Hin |].
    erewrite bind_Ok by exact Htemplate. reflexivity.
  - unfold sequence_nth_term. cbv zeta.
    rewrite (Hprefix _ (λ entropy variable context sequence num_terms, _)).
    match goal with |- context [choice ?l ≫= _] =>
      destruct (choice_Ok l {| rng := g4; calls := calls w |} ltac:(done))
        as (template & Hin & Htemplate)
    end.
    apply list_elem_of_singleton in Hin as ->.
    erewrite bind_Ok by exact Htemplate. reflexivity.
Qed.


(** ** The retry loop of [_solve_linear_system] *)

Section RetryLoop.
Variables (variables : list Symbol) (solutions : list Qc) (entropy : Qc)
  (solution_index : nat) (sample_args : SampleArgs).

Local Abbreviation loop fuel :=
  (construct_equations fuel variables solutions entropy solution_index
     sample_args).
Local Abbreviation after k :=
  (after_constructions k variables solutions entropy solution_index).
Local Abbreviation system k :=
  (constructed k variables solutions entropy solution_index).
Local Abbreviation call :=
  (CallLinearSystem variables solutions entropy solution_index).

Lemma accepted_test (equations : list Expr) :
  bool_decide (num_modules sample_args ≤ 1)%Z
  || bool_decide (ops_number_constants equations ≠ [])
  = bool_decide (accepted sample_args equations).
Proof.
  unfold accepted. rewrite <- bool_decide_or. reflexivity.
Qed.

Lemma calls_after_constructions (k : nat) (w : world) :
  calls (after k w) = replicate k call ++ calls w.
Proof.
  revert w. induction k as [| k IH]; intros w; [done |].
  cbn [after_constructions]. rewrite IH. cbn [final_world linear_system sample calls].
  by rewrite replicate_S_end, <- app_assoc.
Qed.

Lemma construct_equations_spec (fuel : nat) (w : world) :
  match loop fuel w with
  | Ok equations w' =>
      ∃ k, (k < fuel)%nat
        ∧ (∀ j, (j < k)%nat → ¬ accepted sample_args (system j w))
        ∧ equations = system k w
        ∧ accepted sample_args equations
        ∧ w' = after (S k) w
  | Raise _ _ => False
  | OutOfFuel w' =>
      (∀ j, (j < fuel)%nat → ¬ accepted sample_args (system j w))
      ∧ w' = after fuel w
  end.
Proof.
  revert w. induction fuel as [| fuel IH]; intros w.
  - simpl. split; [intros j Hj; lia | done].
  - cbn [construct_equations]. erewrite bind_Ok by reflexivity. cbv zeta.
    rewrite accepted_test.
    set (w1 := {| rng := _; calls := _ |}).
    assert (w1 = final_world
                   (linear_system variables solutions entropy solution_index w))
      as Hw1 by done.
    destruct (bool_decide_reflect (accepted sample_args
      (linear_system_linear_system variables solutions entropy solution_index
         (rng w)).1)) as [Hacc | Hrej].
    + exists 0%nat. split_and!; [lia | intros j Hj; lia | done | done | done].
    + specialize (IH w1). destruct (loop fuel w1) as [equations w' | | w'].
      * destruct IH as (k & Hk & Hrejs & -> & Hacc & ->).
        exists (S k). split_and!; [lia | | done | done | done].
        intros [| j] Hj; [done |]. apply (Hrejs j). lia.
      * done.
      * destruct IH as [Hrejs ->]. split; [| done].
        intros [| j] Hj; [done |]. apply (Hrejs j). lia.
Qed.

Lemma construct_equations_first (k fuel : nat) (w : world) :
  (∀ j, (j < k)%nat → ¬ accepted sample_args (system j w)) →
  accepted sample_args (system k w) →
  (k < fuel)%nat →
  loop fuel w = Ok (system k w) (after (S k) w).
Proof.
  intros Hrejs Hacc Hk. pose proof (construct_equations_spec fuel w) as Hspec.
  destruct (loop fuel w) as [equations w' | | w'].
  - destruct Hspec as (k' & Hk' & Hrejs' & -> & Hacc' & ->).
    destruct (Nat.lt_trichotomy k k') as [Hlt | [-> | Hgt]]; [| done |].
    + by specialize (Hrejs' k Hlt).
    + by specialize (Hrejs k' Hgt).
  - done.
  - destruct Hspec as [Hrejs' _]. by specialize (Hrejs' k Hk).
Qed.

End RetryLoop.

(** C3 (as amended): the loop of [_solve_linear_system] builds the system
    again and again until one is accepted, and there is no cap on the
    number of constructions.  With at most one module left the first system
    is accepted whatever it holds.  Otherwise the result is the first
    constructed system that has number constants, after any number [k] of
    systems without; exactly [k + 1] systems are then built.  The loop
    never raises, and it goes on for as long as every system built, with
    more than one module left, has no number constants. *)
Theorem construct_equations_retries_until_accepted
    (variables : list Symbol) (solutions : list Qc) (entropy : Qc)
    (solution_index : nat) (sample_args : SampleArgs) (w : world) :
  let loop fuel :=
    construct_equations fuel variables solutions entropy solution_index
      sample_args w in
  let system k :=
    constructed k variables solutions entropy solution_index w in
  let after k :=
    after_constructions k variables solutions entropy solution_index w in
  let call := CallLinearSystem variables solutions entropy solution_index in
  ((num_modules sample_args ≤ 1)%Z → ∀ fuel,
     loop (S fuel) = Ok (system 0%nat) (after 1%nat))
  ∧ ((1 < num_modules sample_args)%Z → ∀ k fuel,
     (∀ j, (j < k)%nat → ops_number_constants (system j) = []) →
     ops_number_constants (system k) ≠ [] →
     (k < fuel)%nat →
     loop fuel = Ok (system k) (after (S k)))
  ∧ (∀ k, calls (after k) = replicate k call ++ calls w)
  ∧ (∀ fuel,
       match loop fuel with
       | Ok equations w' =>
           accepted sample_args equations
           ∧ ∃ k, (k < fuel)%nat ∧ w' = after (S k)
       | Raise _ _ => False
       | OutOfFuel w' =>
           (∀ j, (j < fuel)%nat →
              (1 < num_modules sample_args)%Z
              ∧ ops_number_constants (system j) = [])
           ∧ w' = after fuel
       end).
Proof.
  intros loop system after call. split_and!.
  - intros Hpure fuel. apply construct_equations_first; [| by left | lia].
    intros j Hj. lia.
  - intros Hcomposed k fuel Hrejs Hacc Hk.
    apply construct_equations_first; [| by right | done].
    intros j Hj [Hpure | Hconst]; [lia |]. by apply Hconst, Hrejs.
  - intros k. apply calls_after_constructions.
  - intros fuel. unfold loop.
    pose proof (construct_equations_spec variables solutions entropy
                  solution_index sample_args fuel w) as Hspec.
    destruct (construct_equations _ _ _ _ _ _ _) as [equations w' | | w'].
    + destruct Hspec as (k & Hk & _ & _ & Hacc & ->). split; [done |].
      by exists k.
    + done.
    + destruct Hspec as [Hrejs ->].
      assert (∀ j, (j < fuel)%nat →
                (1 < num_modules sample_args)%Z
                ∧ ops_number_constants (system j) = []) as Hall.
      { intros j Hj. specialize (Hrejs j Hj). unfold accepted in Hrejs.
        split.
        - destruct (decide (num_modules sample_args ≤ 1)%Z); [| lia].
          destruct Hrejs. by left.
        - destruct (decide (ops_number_constants (system j) = [])); [done |].
          destruct Hrejs. by right. }
      done.
Qed.


(** ** [_solve_linear_system] *)

Lemma sample_each_solution (entropies : list Qc) (w : world) :
  ∃ extra w',
    for_each (λ solution_entropy, integer solution_entropy true) entropies w
    = Ok extra w'
    ∧ length extra = length entropies
    ∧ calls w' = rev (map (λ e, CallInteger e true) entropies) ++ calls w.
Proof.
  revert w. induction entropies as [| e entropies IH]; intros w.
  - by exists [], w.
  - cbn [for_each].
    set (w1 := {| rng := (number_integer e true (rng w)).2;
                  calls := CallInteger e true :: calls w |}).
    destruct (IH w1) as (extra & w' & Hrun & Hlen & Hcalls).
    exists (Qc_of_Z (number_integer e true (rng w)).1 :: extra), w'.
    split_and!.
    + erewrite bind_Ok' by reflexivity. by erewrite bind_Ok' by exact Hrun.
    + simpl. by rewrite Hlen.
    + rewrite Hcalls. simpl. by rewrite <- app_assoc.
Qed.

Lemma pop_symbols_spec (n : nat) (context : Context) (w : world) :
  ∃ variables context' w',
    pop_symbols n context w = Ok (variables, context') w'
    ∧ length variables = n
    ∧ calls w' = calls w.
Proof.
  revert context w. induction n as [| n IH]; intros context w.
  - by exists [], context, w.
  - cbn [pop_symbols]. erewrite bind_Ok by reflexivity.
    destruct (Context_pop context (rng w)).1 as [name context1].
    destruct (IH context1 {| rng := (Context_pop context (rng w)).2;
                             calls := calls w |})
      as (variables & context' & w' & Hrun & Hlen & Hcalls).
    exists (name :: variables), context', w'. split_and!.
    + by erewrite bind_Ok by exact Hrun.
    + simpl. by rewrite Hlen.
    + done.
Qed.

Lemma Qcminus_0_r (x : Qc) : x - 0 = x.
Proof. unfold Qcminus. change (- 0) with 0. apply Qcplus_0_r. Qed.

(** The run of [_solve_linear_system] up to its loop, and from the loop's
    outcome to the result. *)
Lemma solve_linear_system_run
    (fuel : nat) (degree : Z) (value : option Qc) (sample_args : Budget)
    (context : option Context) (w : world) :
  (1 ≤ degree)%Z →
  ∃ (raw extra : list Qc) (variables : list Symbol) (context1 : Context)
    (w1 : world),
    let peeled := (peel sample_args (rng w)).1.1 in
    let sample_args' := (peel sample_args (rng w)).1.2 in
    let given := match value with Some v => [v] | None => [] end in
    let entropies := map (Qcmax 1) raw in
    let solutions := given ++ extra in
    let entropy := Qcmax 1 (peeled - Qcsum entropies) in
    length raw = Z.to_nat (degree - Z.of_nat (length given))
    ∧ length extra = length raw
    ∧ length variables = Z.to_nat degree
    ∧ calls w1 = rev (map (λ e, CallInteger e true) entropies) ++ calls w
    ∧ match construct_equations fuel variables solutions entropy 0
              sample_args' w1 with
      | Ok equations w2 =>
          ∃ variable answer_ w3,
            let replaced :=
              (Context_sample_by_replacing_constants sample_args' equations
                 context1 (rng w2)).1 in
            let text := String.concat ", " (map str replaced.1) in
            variables !! 0%nat = Some variable
            ∧ solutions !! 0%nat = Some answer_
            ∧ calls w3 = calls w2
            ∧ _solve_linear_system fuel degree value sample_args context w
              = Ok
                  match context with
                  | None =>
                      RProblem {|
                        question := {|
                          question_context := replaced.2;
                          question_template :=
                            "Solve {equations} for {variable}.";
                          question_kwargs :=
                            [("equations", VText text);
                             ("variable", VSymbol variable)] |};
                        answer := VNumber answer_ |}
                  | Some _ =>
                      REntity {|
                        entity_context := replaced.2;
                        value := answer_;
                        description := "Suppose {equations}.";
                        handle := variable;
                        equations := text |}
                  end w3
      | Raise _ _ => False
      | OutOfFuel w2 =>
          _solve_linear_system fuel degree value sample_args context w
          = OutOfFuel w2
      end.
Proof.
  intros Hdegree. unfold _solve_linear_system. cbv zeta.
  erewrite bind_Ok by reflexivity. cbn [rng calls].
  destruct (peel sample_args (rng w)) as [[peeled sample_args'] g1] eqn:Hpeel.
  cbn [fst snd].
  set (given := match value with Some v => [v] | None => [] end).
  set (context0 := match context with None => Context_new | Some c => c end).
  set (w0 := {| rng := g1; calls := calls w |}).
  (* the extra solutions *)
  assert (∃ raw extra w0',
    (if decide (0 < degree - Z.of_nat (length given))%Z
     then
       weights ← dirichlet (Z.to_nat (degree - Z.of_nat (length given)));
       let entropies := map (Qcmult (peeled / Qc_of_Z 4)) weights in
       let entropies := map (Qcmax 1) entropies in
       let entropy := peeled - Qcsum entropies in
       extra ← for_each (λ solution_entropy, integer solution_entropy true)
                 entropies;
       mret (entropy, given ++ extra)
     else mret (peeled, given)) w0
    = Ok (peeled - Qcsum (map (Qcmax 1) raw), given ++ extra) w0'
    ∧ length raw = Z.to_nat (degree - Z.of_nat (length given))
    ∧ length extra = length raw
    ∧ calls w0' = rev (map (λ e, CallInteger e true) (map (Qcmax 1) raw))
                  ++ calls w)
    as (raw & extra & w0' & Hextra & Hraw & Hlen & Hcalls).
  { destruct (decide (0 < degree - Z.of_nat (length given))%Z) as [Hpos | Hle].
    - erewrite bind_Ok by reflexivity. cbv zeta.
      set (weights := (np_random_dirichlet _ _).1).
      set (raw := map (Qcmult (peeled / Qc_of_Z 4)) weights).
      match goal with |- context [mbind _ _ ?w'] =>
        destruct (sample_each_solution (map (Qcmax 1) raw) w')
          as (extra & w0' & Hrun & Hlen & Hcalls)
      end.
      exists raw, extra, w0'. erewrite bind_Ok by exact Hrun.
      rewrite length_map in Hlen. split_and!; [done | | done | done].
      unfold raw, weights. by rewrite length_map, np_random_dirichlet_length.
    - exists [], [], w0. simpl. rewrite app_nil_r, Qcminus_0_r.
      split_and!; [done | lia | done | done]. }
  erewrite bind_Ok by exact Hextra.
  destruct (pop_symbols_spec (Z.to_nat degree) context0 w0')
    as (variables & context1 & w1 & Hpop & Hvars & Hcalls1).
  erewrite bind_Ok by exact Hpop.
  exists raw, extra, variables, context1, w1.
  split_and!; [done | done | done | by rewrite Hcalls1, Hcalls |].
  pose proof (construct_equations_spec variables (given ++ extra)
    (Qcmax 1 (peeled - Qcsum (map (Qcmax 1) raw))) 0 sample_args' fuel w1)
    as Hloop.
  destruct (construct_equations _ _ _ _ _ _ _) as [equations w2 | | w2] eqn:Hrun.
  - erewrite bind_Ok by exact Hrun. erewrite bind_Ok by reflexivity.
    destruct (Context_sample_by_replacing_constants _ _ _ _).1
      as [equations' context2] eqn:Hreplaced.
    destruct variables as [| variable variables]; [simpl in Hvars; lia |].
    assert (∃ answer_, (given ++ extra) !! 0%nat = Some answer_)
      as [answer_ Hanswer].
    { apply lookup_lt_is_Some_2. rewrite length_app, Hlen, Hraw. lia. }
    exists variable, answer_.
    assert (getitem (given ++ extra) 0
              {| rng := (Context_sample_by_replacing_constants sample_args'
                           equations context1 (rng w2)).2;
                 calls := calls w2 |}
            = Ok answer_
                {| rng := (Context_sample_by_replacing_constants sample_args'
                             equations context1 (rng w2)).2;
                   calls := calls w2 |}) as Hget.
    { unfold getitem. by rewrite Hanswer. }
    destruct context as [c |].
    + eexists. split_and!; [done | done | |].
      2:{ erewrite bind_Ok by reflexivity. erewrite bind_Ok by exact Hget.
          reflexivity. }
      reflexivity.
    + match type of Hget with _ ?w3 = _ =>
        destruct (choice_Ok ["Solve {equations} for {variable}."] w3
                    ltac:(done)) as (template & Hin & Htemplate)
      end.
      apply list_elem_of_singleton in Hin as ->.
      eexists. split_and!; [done | done | |].
      2:{ erewrite bind_Ok by reflexivity. erewrite bind_Ok by exact Hget.
          erewrite bind_Ok by exact Htemplate. reflexivity. }
      reflexivity.
  - done.
  - by erewrite bind_OutOfFuel by exact Hrun.
Qed.


(** C8: in [_solve_linear_system] every extra solution is sampled with an
    entropy of at least 1, each being [max(1, share)] of its share of a
    quarter of the peeled entropy, and every call of the linear-system
    oracle gets the entropy [max(1, peeled - sum of those)], at least 1 as
    well, whatever is left of the peeled entropy.  These are all the sampler
    calls the function makes itself: one per extra solution, then one per
    construction of the system. *)
Theorem solve_linear_system_entropy_clamped
    (fuel : nat) (degree : Z) (value : option Qc) (sample_args : Budget)
    (context : option Context) (w : world) :
  (1 ≤ degree)%Z →
  ∃ (raw : list Qc) (variables : list Symbol) (solutions : list Qc)
    (k : nat),
    let peeled := (peel sample_args (rng w)).1.1 in
    let entropies := map (Qcmax 1) raw in
    let entropy := Qcmax 1 (peeled - Qcsum entropies) in
    calls_since w
      (final_world
         (_solve_linear_system fuel degree value sample_args context w))
      (replicate k (CallLinearSystem variables solutions entropy 0)
       ++ rev (map (λ e, CallInteger e true) entropies))
    ∧ length raw
      = Z.to_nat (degree - match value with Some _ => 1 | None => 0 end)
    ∧ Forall (λ e, 1 ≤ e) entropies
    ∧ 1 ≤ entropy
    ∧ ((0 < fuel)%nat → (0 < k)%nat).
Proof.
  intros Hdegree.
  destruct (solve_linear_system_run fuel degree value sample_args context w
              Hdegree)
    as (raw & extra & variables & context1 & w1 & Hraw & _ & _ & Hcalls & Hrun).
  cbv zeta in *.
  set (given := match value with Some v => [v] | None => [] end) in *.
  set (entropy := Qcmax 1 _) in *.
  pose proof (construct_equations_spec variables (given ++ extra) entropy 0
                (peel sample_args (rng w)).1.2 fuel w1) as Hloop.
  assert (∃ k,
    calls (final_world
             (_solve_linear_system fuel degree value sample_args context w))
    = replicate k (CallLinearSystem variables (given ++ extra) entropy 0)
      ++ calls w1
    ∧ ((0 < fuel)%nat → (0 < k)%nat)) as (k & Hfinal & Hk).
  { destruct (construct_equations _ _ _ _ _ _ _) as [equations w2 | | w2].
    - destruct Hloop as (k & _ & _ & _ & _ & ->).
      destruct Hrun as (variable & answer_ & w3 & _ & _ & Hcalls3 & ->).
      exists (S k). cbn [final_world]. rewrite Hcalls3.
      split; [apply calls_after_constructions | lia].
    - done.
    - destruct Hloop as [_ ->]. rewrite Hrun. exists fuel. cbn [final_world].
      split; [apply calls_after_constructions | done]. }
  exists raw, variables, (given ++ extra), k. split_and!.
  - unfold calls_since. by rewrite Hfinal, Hcalls, <- app_assoc.
  - rewrite Hraw. unfold given. by destruct value.
  - apply Forall_forall. intros e (x & -> & _)%list_elem_of_fmap.
    apply Qcmax_ge_l.
  - apply Qcmax_ge_l.
  - done.
Qed.





(** ** [polynomial_roots] *)

Lemma StronglySorted_Qclt (l : list Qc) :
  StronglySorted Qcle l → NoDup l → StronglySorted Qclt l.
Proof.
  induction 1 as [| x l Hl IH Hx]; intros Hnodup; [constructor |].
  apply NoDup_cons in Hnodup as [Hnotin Hnodup].
  constructor; [by apply IH |].
  apply Forall_forall. intros y Hy. rewrite Forall_forall in Hx.
  destruct (Qcle_lt_or_eq x y (Hx y Hy)) as [Hlt | ->]; done.
Qed.

(** The sorted list of the [sympy.FiniteSet] of the roots: the roots without
    repetition, in strictly ascending order. *)
Lemma sorted_distinct_roots (roots : list Qc) :
  StronglySorted Qclt (merge_sort Qcle (remove_dups roots))
  ∧ ∀ x, x ∈ merge_sort Qcle (remove_dups roots) ↔ x ∈ roots.
Proof.
  pose proof (merge_sort_Permutation Qcle (remove_dups roots)) as Hperm.
  split.
  - apply StronglySorted_Qclt.
    + apply (StronglySorted_merge_sort Qcle).
    + rewrite Hperm. apply NoDup_remove_dups.
  - intros x. by rewrite Hperm, elem_of_remove_dups.
Qed.

Lemma factor_template_not_roots_template :
  "Factor {expression}." ∉ polynomial_roots_templates.
Proof. apply (bool_decide_unpack _). by vm_compute. Qed.

(** The run of [polynomial_roots]: the roots, then the coefficients, then a
    problem of one of the two kinds. *)
Lemma polynomial_roots_run
    (fuel : nat) (value : option Qc) (sample_args : Budget)
    (context : option Context) (w : world) :
  let peeled := (peel sample_args (rng w)).1.1 in
  let scale_entropy := Qcmin (peeled / Qc_of_Z 2) 1 in
  let w0 := {| rng := (peel sample_args (rng w)).2; calls := calls w |} in
  ∃ roots w1,
    _sample_roots (peeled - scale_entropy) w0 = Ok roots w1
    ∧ match _polynomial_coeffs_with_roots fuel roots scale_entropy w1 with
      | Ok coeffs w2 =>
          ∃ (ask_roots : bool) problem variable w',
            polynomial_roots fuel value sample_args context w
            = Ok (RProblem problem) w'
            ∧ if ask_roots then
                question_template (question problem)
                  ∈ polynomial_roots_templates
                ∧ ("variable", VSymbol variable)
                    ∈ question_kwargs (question problem)
                ∧ answer problem
                  = roots_answer (merge_sort Qcle (remove_dups roots))
              else
                question_template (question problem) = "Factor {expression}."
                ∧ answer problem
                  = VExpr (sympy_factor
                             (polynomials_coefficients_to_polynomial coeffs
                                variable))
      | Raise _ _ => False
      | OutOfFuel w2 =>
          polynomial_roots fuel value sample_args context w = OutOfFuel w2
      end.
Proof.
  cbv zeta. unfold polynomial_roots. cbv zeta.
  erewrite bind_Ok by reflexivity.
  destruct (peel sample_args (rng w)) as [[peeled sample_args'] g1].
  cbn [fst snd rng calls].
  set (scale_entropy := Qcmin (peeled / Qc_of_Z 2) 1).
  set (w0 := {| rng := g1; calls := calls w |}).
  destruct (sample_roots_spec (peeled - scale_entropy) w0)
    as (num_roots & num_repeated & sampled & repeated & new & w1 & Hroots
        & _).
  exists (sampled ++ repeated), w1. split; [done |].
  erewrite bind_Ok by exact Hroots.
  set (roots := sampled ++ repeated) in *.
  pose proof (polynomial_coeffs_with_roots_outcome fuel roots scale_entropy
                w1 (sample_roots_nonempty _ _ _ _ Hroots)) as Hcoeffs.
  destruct (_polynomial_coeffs_with_roots fuel roots scale_entropy w1)
    as [coeffs w2 | | w2] eqn:Hrun.
  2: done.
  2: by erewrite bind_OutOfFuel by exact Hrun.
  erewrite bind_Ok by exact Hrun. erewrite bind_Ok by reflexivity.
  set (context0 := match context with None => Context_new | Some c => c end).
  pose proof (Context_sample_entities sample_args' [coeffs] context0 (rng w2))
    as [Hlen Hwf].
  destruct (Context_sample sample_args' [coeffs] context0 (rng w2)).1
    as [entities context1] eqn:Hentities.
  cbn [fst snd] in Hlen, Hwf.
  destruct entities as [| polynomial_entity [| ? ?]]; [done | | done].
  rewrite Forall_singleton in Hwf.
  erewrite bind_Ok by reflexivity.
  set (w3 := {| rng := _; calls := _ |}).
  destruct (choice_Ok [false; true] w3 ltac:(done)) as (ask_roots & _ & Hask).
  erewrite bind_Ok by exact Hask.
  set (w4 := {| rng := _; calls := _ |}).
  exists ask_roots.
  (* the variable, from the entity or from the pool *)
  destruct (has_expression polynomial_entity) eqn:Hexpr.
  - destruct (polynomial_variables polynomial_entity)
      as [| variable variables] eqn:Hvars; [by destruct (Hwf eq_refl) |].
    destruct ask_roots.
    + destruct (choice_Ok polynomial_roots_templates w4 ltac:(done))
        as (template & Hin & Htemplate).
      eexists _, variable, _. split.
      * erewrite bind_Ok by reflexivity. cbv beta iota.
        erewrite bind_Ok by exact Htemplate. reflexivity.
      * split_and!; [done | | done].
        cbn. apply list_elem_of_further, list_elem_of_here.
    + destruct (choice_Ok ["Factor {expression}."] w4 ltac:(done))
        as (template & Hin & Htemplate).
      apply list_elem_of_singleton in Hin as ->.
      eexists _, variable, _. split.
      * erewrite bind_Ok by reflexivity. cbv beta iota.
        erewrite bind_Ok by exact Htemplate. reflexivity.
      * done.
  - destruct (Context_pop context1 (rng w4)) as [[name context2] g5] eqn:Hpop.
    set (w5 := {| rng := g5; calls := calls w4 |}).
    assert (pop context1 w4 = Ok (name, context2) w5) as Hpop'.
    { unfold pop, draw. by rewrite Hpop. }
    destruct ask_roots.
    + destruct (choice_Ok polynomial_roots_templates w5 ltac:(done))
        as (template & Hin & Htemplate).
      eexists _, name, _. split.
      * erewrite bind_Ok.
        2:{ erewrite bind_Ok by exact Hpop'. reflexivity. }
        cbv beta iota. erewrite bind_Ok by exact Htemplate. reflexivity.
      * split_and!; [done | | done].
        cbn. apply list_elem_of_further, list_elem_of_here.
    + destruct (choice_Ok ["Factor {expression}."] w5 ltac:(done))
        as (template & Hin & Htemplate).
      apply list_elem_of_singleton in Hin as ->.
      eexists _, name, _. split.
      * erewrite bind_Ok.
        2:{ erewrite bind_Ok by exact Hpop'. reflexivity. }
        cbv beta iota. erewrite bind_Ok by exact Htemplate. reflexivity.
      * done.
Qed.

(** C5: a call of [polynomial_roots] comes back exactly when the scale
    loop of [_polynomial_coeffs_with_roots] does (C7 says when that is), and
    then it returns a problem of one of two kinds, told apart by the
    template of the question.  On the "ask for the roots" branch (a
    template of [polynomial_roots_templates]) the answer is the list of the
    sampled roots without repetition in strictly ascending order, a single
    root standing for itself.  On the "factor" branch (the template
    "Factor {expression}.", which is none of the former) the answer is the
    factored form of the polynomial of the coefficients that
    [_polynomial_coeffs_with_roots] returned for the sampled roots. *)
Theorem polynomial_roots_answer
    (fuel : nat) (value : option Qc) (sample_args : Budget)
    (context : option Context) (w : world) :
  let peeled := (peel sample_args (rng w)).1.1 in
  let scale_entropy := Qcmin (peeled / Qc_of_Z 2) 1 in
  let w0 := {| rng := (peel sample_args (rng w)).2; calls := calls w |} in
  ∃ roots w1,
    _sample_roots (peeled - scale_entropy) w0 = Ok roots w1
    ∧ (halts (polynomial_roots fuel value sample_args context w)
       ↔ halts (_polynomial_coeffs_with_roots fuel roots scale_entropy w1))
    ∧ (halts (_polynomial_coeffs_with_roots fuel roots scale_entropy w1) →
       ∃ coeffs w2 (ask_roots : bool) problem variable w',
         _polynomial_coeffs_with_roots fuel roots scale_entropy w1
         = Ok coeffs w2
         ∧ polynomial_roots fuel value sample_args context w
           = Ok (RProblem problem) w'
         ∧ if ask_roots then
             question_template (question problem)
               ∈ polynomial_roots_templates
             ∧ ∃ solutions,
                 StronglySorted Qclt solutions
                 ∧ (∀ x, x ∈ solutions ↔ x ∈ roots)
                 ∧ answer problem = roots_answer solutions
           else
             question_template (question problem) = "Factor {expression}."
             ∧ answer problem
               = VExpr (sympy_factor
                          (polynomials_coefficients_to_polynomial coeffs
                             variable))).
Proof.
  intros peeled scale_entropy w0.
  destruct (polynomial_roots_run fuel value sample_args context w)
    as (roots & w1 & Hroots & Hrun).
  fold peeled scale_entropy w0 in Hroots, Hrun.
  exists roots, w1. split; [done |].
  destruct (_polynomial_coeffs_with_roots fuel roots scale_entropy w1)
    as [coeffs w2 | | w2] eqn:Hcoeffs.
  - destruct Hrun as (ask_roots & problem & variable & w' & Hrun & Hkind).
    split; [by rewrite Hrun |]. intros _.
    exists coeffs, w2, ask_roots, problem, variable, w'.
    split_and!; [done | done |].
    destruct ask_roots; [| exact Hkind].
    destruct Hkind as (Htemplate & _ & Hanswer). split; [done |].
    exists (merge_sort Qcle (remove_dups roots)).
    destruct (sorted_distinct_roots roots). by split_and!.
  - done.
  - rewrite Hrun. split; [done | intros []].
Qed.

(** The whole run of [polynomial_roots]: what is sampled from which
    context, and the problem that is made of it. *)
Lemma polynomial_roots_shape
    (fuel : nat) (value : option Qc) (sample_args : Budget)
    (context : option Context) (w : world) :
  let peeled := (peel sample_args (rng w)).1.1 in
  let sample_args' := (peel sample_args (rng w)).1.2 in
  let scale_entropy := Qcmin (peeled / Qc_of_Z 2) 1 in
  let w0 := {| rng := (peel sample_args (rng w)).2; calls := calls w |} in
  let context0 := match context with None => Context_new | Some c => c end in
  ∃ roots w1,
    _sample_roots (peeled - scale_entropy) w0 = Ok roots w1
    ∧ match _polynomial_coeffs_with_roots fuel roots scale_entropy w1 with
      | Ok coeffs w2 =>
          let sampled :=
            Context_sample sample_args' [coeffs] context0 (rng w2) in
          let popped :=
            Context_pop sampled.1.2 (random_choice_index 2 sampled.2).2 in
          ∃ polynomial_entity (ask_roots : bool) variable template w',
            sampled.1.1 = [polynomial_entity]
            ∧ let named := has_expression polynomial_entity in
              let shown :=
                if named then expression polynomial_entity
                else handle_apply polynomial_entity variable in
              let context2 := if named then sampled.1.2 else popped.1.2 in
              (if named
               then polynomial_variables polynomial_entity !! 0%nat
                    = Some variable
               else variable = popped.1.1)
              ∧ template ∈ polynomial_roots_templates
              ∧ calls w' = calls w2
              ∧ polynomial_roots fuel value sample_args context w
                = Ok (RProblem
                        (if ask_roots then
                           {| question := {|
                                question_context := context2;
                                question_template := template;
                                question_kwargs :=
                                  [("equality", VExpr (ops_Eq shown 0));
                                   ("variable", VSymbol variable)] |};
                              answer :=
                                roots_answer
                                  (merge_sort Qcle (remove_dups roots)) |}
                         else
                           {| question := {|
                                question_context := context2;
                                question_template := "Factor {expression}.";
                                question_kwargs :=
                                  [("expression", VExpr shown)] |};
                              answer :=
                                VExpr (sympy_factor
                                  (polynomials_coefficients_to_polynomial
                                     coeffs variable)) |}))
                     w'
      | Raise _ _ => False
      | OutOfFuel w2 =>
          polynomial_roots fuel value sample_args context w = OutOfFuel w2
      end.
Proof.
  cbv zeta. unfold polynomial_roots. cbv zeta.
  erewrite bind_Ok by reflexivity.
  destruct (peel sample_args (rng w)) as [[peeled sample_args'] g1].
  cbn [fst snd rng calls].
  set (scale_entropy := Qcmin (peeled / Qc_of_Z 2) 1).
  set (w0 := {| rng := g1; calls := calls w |}).
  destruct (_sample_roots (peeled - scale_entropy) w0)
    as [roots w1 | |] eqn:Hroots.
  2,3: by destruct (sample_roots_spec (peeled - scale_entropy) w0)
         as (? & ? & ? & ? & ? & ? & Hrun & _); rewrite Hrun in Hroots.
  exists roots, w1. split; [done |].
  erewrite bind_Ok by exact Hroots.
  pose proof (polynomial_coeffs_with_roots_outcome fuel roots scale_entropy
                w1 (sample_roots_nonempty _ _ _ _ Hroots)) as Hcoeffs.
  destruct (_polynomial_coeffs_with_roots fuel roots scale_entropy w1)
    as [coeffs w2 | | w2] eqn:Hrun.
  2: done.
  2: by erewrite bind_OutOfFuel by exact Hrun.
  erewrite bind_Ok by exact Hrun. erewrite bind_Ok by reflexivity.
  set (context0 := match context with None => Context_new | Some c => c end).
  pose proof (Context_sample_entities sample_args' [coeffs] context0 (rng w2))
    as [Hlen Hwf].
  destruct (Context_sample sample_args' [coeffs] context0 (rng w2))
    as [[entities context1] g3] eqn:Hentities.
  cbn [fst snd] in *.
  destruct entities as [| polynomial_entity [| ? ?]]; [done | | done].
  rewrite Forall_singleton in Hwf.
  erewrite bind_Ok by reflexivity.
  set (w3 := {| rng := g3; calls := calls w2 |}).
  destruct (choice_Ok [false; true] w3 ltac:(done)) as (ask_roots & _ & Hask).
  erewrite bind_Ok by exact Hask. cbn [length rng calls w3].
  set (g4 := (random_choice_index 2 g3).2).
  set (w4 := {| rng := g4; calls := calls w2 |}).
  exists polynomial_entity, ask_roots.
  destruct (has_expression polynomial_entity) eqn:Hexpr.
  - destruct (polynomial_variables polynomial_entity)
      as [| variable variables] eqn:Hvars; [by destruct (Hwf eq_refl) |].
    exists variable.
    destruct (choice_Ok polynomial_roots_templates w4 ltac:(done))
      as (template & Hin & Htemplate).
    destruct ask_roots.
    + eexists template, _. split_and!; [done | done | done | |].
      2:{ erewrite bind_Ok by reflexivity. cbv beta iota.
          erewrite bind_Ok by exact Htemplate. reflexivity. }
      reflexivity.
    + destruct (choice_Ok ["Factor {expression}."] w4 ltac:(done))
        as (template' & Hin' & Htemplate').
      apply list_elem_of_singleton in Hin' as ->.
      eexists template, _. split_and!; [done | done | done | |].
      2:{ erewrite bind_Ok by reflexivity. cbv beta iota.
          erewrite bind_Ok by exact Htemplate'. reflexivity. }
      reflexivity.
  - destruct (Context_pop context1 g4) as [[name context2] g5] eqn:Hpop.
    cbn [fst snd].
    set (w5 := {| rng := g5; calls := calls w2 |}).
    assert (pop context1 w4 = Ok (name, context2) w5) as Hpop'.
    { unfold pop, draw. cbn [rng calls w4]. by rewrite Hpop. }
    exists name.
    destruct (choice_Ok polynomial_roots_templates w5 ltac:(done))
      as (template & Hin & Htemplate).
    destruct ask_roots.
    + eexists template, _. split_and!; [done | done | done | |].
      2:{ erewrite bind_Ok.
          2:{ erewrite bind_Ok by exact Hpop'. reflexivity. }
          cbv beta iota. erewrite bind_Ok by exact Htemplate. reflexivity. }
      reflexivity.
    + destruct (choice_Ok ["Factor {expression}."] w5 ltac:(done))
        as (template' & Hin' & Htemplate').
      apply list_elem_of_singleton in Hin' as ->.
      eexists template, _. split_and!; [done | done | done | |].
      2:{ erewrite bind_Ok.
          2:{ erewrite bind_Ok by exact Hpop'. reflexivity. }
          cbv beta iota. erewrite bind_Ok by exact Htemplate'. reflexivity. }
      reflexivity.
Qed.


End WithCollaborators.

(** ** On the concrete collaborators *)



(** On an empty tape every constructed system is without constants. *)
Lemma empty_tape_after_constructions
    (k : nat) (variables : list Symbol) (solutions : list Qc) (entropy : Qc)
    (w : world (H := tape)) :
  rng w = [] →
  rng (after_constructions k variables solutions entropy 0 w) = [].
Proof.
  revert w. induction k as [| k IH]; intros w Hw; [done |].
  cbn [after_constructions]. apply IH. simpl. by rewrite Hw.
Qed.

(** C3, refuted as stated: the retry loop has no iteration cap.  With two
    modules left and collaborators whose systems never have a number
    constant, the number of constructions exceeds any bound. *)
Lemma retry_loop_has_no_cap :
  ¬ ∃ cap : nat, ∀ fuel : nat,
      (length (calls (final_world
         (construct_equations (H := tape) fuel ["a"] [Qc_of_Z 7] 1 0
            (tape_args 2) (tape_world []))))
       ≤ cap)%nat.
Proof.
  intros [cap Hcap]. specialize (Hcap (S cap)).
  pose proof (construct_equations_spec (H := tape) ["a"] [Qc_of_Z 7] 1 0
                (tape_args 2) (S cap) (tape_world [])) as Hloop.
  destruct (construct_equations _ _ _ _ _ _ _) as [equations w' | | w'].
  - destruct Hloop as (k & _ & _ & -> & [Hpure | Hconstants] & _).
    + simpl in Hpure. lia.
    + unfold constructed in Hconstants.
      rewrite empty_tape_after_constructions in Hconstants by done.
      by apply Hconstants.
  - done.
  - destruct Hloop as [_ ->]. cbn [final_world] in Hcap.
    rewrite calls_after_constructions, length_app, length_replicate in Hcap.
    lia.
Qed.

(** The loop on a tape whose first two systems have no constants. *)
Lemma construct_equations_retries_witness :
  construct_equations (H := tape) 5 ["a"] [Qc_of_Z 7] 1 0 (tape_args 2)
    (tape_world [0; 0; 3]%nat)
  = Ok (constructed 2 ["a"] [Qc_of_Z 7] 1 0 (tape_world [0; 0; 3]%nat))
       (after_constructions 3 ["a"] [Qc_of_Z 7] 1 0
          (tape_world [0; 0; 3]%nat)).
Proof.
  refine (proj1 (proj2 (construct_equations_retries_until_accepted
            (H := tape) ["a"] [Qc_of_Z 7] 1 0 (tape_args 2)
            (tape_world [0; 0; 3]%nat))) _ 2%nat 5%nat _ _ _).
  - simpl. lia.
  - intros [| [| j]] Hj; [reflexivity | reflexivity | lia].
  - simpl. discriminate.
  - lia.
Defined.

(** [_polynomial_coeffs_with_roots] on the roots 2, 2, -3 with a first drawn
    scale of zero and a second of 4. *)
Lemma polynomial_coeffs_scale_witness :
  _polynomial_coeffs_with_roots (H := tape) 3
    [Qc_of_Z 2; Qc_of_Z 2; Qc_of_Z (-3)] 1 (tape_world [0; 4]%nat)
  = Ok (map (λ coeff,
               coeff * scale_draw 1 1 (tape_world [0; 4]%nat)
               * Qc_of_Z (lcm_list (map denom
                   (expand_product [Qc_of_Z 2; Qc_of_Z 2; Qc_of_Z (-3)]))))
          (expand_product [Qc_of_Z 2; Qc_of_Z 2; Qc_of_Z (-3)]))
       (after_scale_draws 2 1 (tape_world [0; 4]%nat)).
Proof.
  destruct (polynomial_coeffs_scale_never_zero
              (H := tape) [Qc_of_Z 2; Qc_of_Z 2; Qc_of_Z (-3)] 1
              (tape_world [0; 4]%nat)) as (_ & _ & _ & Hrun).
  destruct (Hrun ltac:(discriminate)) as (_ & Hpos & _).
  apply (Hpos eq_refl 1%nat 3%nat).
  - intros [| j] Hj; [| lia].
    apply (bool_decide_unpack _). vm_compute. exact I.
  - apply (bool_decide_unpack _). vm_compute. exact I.
  - lia.
Defined.



Lemma solve_linear_system_entropy_clamped_witness :
  ∃ new,
    calls_since (tape_world [5; 4; 0; 0; 1]%nat)
      (final_world (_solve_linear_system (H := tape) 3 2 None (tape_args 2)
                      None (tape_world [5; 4; 0; 0; 1]%nat)))
      new
    ∧ (1 ≤ length new)%nat.
Proof.
  destruct (solve_linear_system_entropy_clamped (H := tape) 3 2 None
              (tape_args 2) None (tape_world [5; 4; 0; 0; 1]%nat)
              ltac:(lia))
    as (raw & variables & solutions & k & Hcalls & _ & _ & _ & Hk).
  eexists. split; [exact Hcalls |].
  rewrite length_app, length_replicate. specialize (Hk ltac:(lia)). lia.
Defined.

Lemma polynomial_roots_answer_witness :
  ∃ problem w',
    polynomial_roots (H := tape) 3 None (tape_args 1) None
      (tape_world [0; 1; 5; 5; 2; 1; 1; 0; 0]%nat)
    = Ok (RProblem problem) w'.
Proof.
  destruct (polynomial_roots_answer (H := tape) 3 None (tape_args 1) None
              (tape_world [0; 1; 5; 5; 2; 1; 1; 0; 0]%nat))
    as (roots & w1 & _ & Hiff & Hrun).
  assert (halts (polynomial_roots (H := tape) 3 None (tape_args 1) None
                   (tape_world [0; 1; 5; 5; 2; 1; 1; 0; 0]%nat)))
    as Hhalts by (vm_compute; exact I).
  destruct (Hrun (proj1 Hiff Hhalts))
    as (coeffs & w2 & ask_roots & problem & variable & w' & _ & Hproblem & _).
  by exists problem, w'.
Defined.

End AlgebraTheory.

(** * Properties of the file driver *)

Module GenerateToFileTheory.
Import GenerateToFile.

Section WithGenerate.
Context `{Generate}.

Local Open Scope nat_scope.

Lemma writes_app (new old : list io_event) :
  writes (new ++ old) = writes old ++ writes new.
Proof. unfold writes. by rewrite reverse_app, omap_app. Qed.

Lemma opens_app (new old : list io_event) :
  opens (new ++ old) = opens old ++ opens new.
Proof. unfold opens. by rewrite reverse_app, omap_app. Qed.

(** The sampling loop of the JSON branch. *)
Lemma json_sampling_loop
    (module : Module_) (n : nat) (dataset_list : list entry) (w : world) :
  for_range n (λ dataset_list,
      '(q, a) ← sample module;
      mret (dataset_list ++ [{| question := q; answer := a |}]))
    dataset_list w
  = Ok (dataset_list ++ (sample_entries module n (sampler w)).1)
       {| sampler := (sample_entries module n (sampler w)).2;
          trace := trace w |}.
Proof.
  revert dataset_list w. induction n as [| n IH]; intros dataset_list w.
  - simpl. rewrite app_nil_r. by destruct w.
  - cbn [for_range sample_entries].
    destruct (sample_from_module module (sampler w)) as [[q a] s1] eqn:Hs.
    erewrite bind_Ok'.
    2:{ erewrite bind_Ok by (unfold sample; rewrite Hs; reflexivity).
        reflexivity. }
    rewrite IH. cbn [sampler trace fst snd]. by rewrite <- app_assoc.
Qed.


Lemma length_sample_entries (module : Module_) (n : nat) (s : Sampler) :
  length (sample_entries module n s).1 = n.
Proof.
  revert s. induction n as [| n IH]; intros s; [done |].
  cbn [sample_entries fst length]. by rewrite IH.
Qed.

(** ** The JSON format *)

Lemma write_module_json
    (regime : string) (per_module : Z) (module_name : string)
    (module : Module_) (dataset_list : list entry) (w : world) :
  let j := {| job_regime := regime; job_name := module_name;
              job_module := module; job_count := Z.to_nat per_module |} in
  let r := sample_entries module (Z.to_nat per_module) (sampler w) in
  ∃ new,
    write_module "json" (os_path_join output_dir regime) per_module
      module_name module dataset_list w
    = Ok (dataset_list ++ r.1)
         {| sampler := r.2; trace := new ++ trace w |}
    ∧ writes new = [(job_path ".json" j, JsonList (dataset_list ++ r.1))].
Proof.
  intros j r. unfold write_module.
  erewrite bind_Ok by reflexivity.
  rewrite bool_decide_true by done.
  erewrite bind_Ok.
  2:{ erewrite bind_Ok by apply json_sampling_loop.
      erewrite bind_Ok by reflexivity. erewrite bind_Ok by reflexivity.
      reflexivity. }
  cbv beta iota. erewrite bind_Ok by reflexivity.
  cbn [sampler trace].
  eexists [_; _; _; _]. split; [reflexivity |]. reflexivity.
Qed.

Lemma json_module_loop
    (regime : string) (per_module : Z)
    (flat_modules : list (string * Module_)) (dataset_list : list entry)
    (w : world) :
  let jobs := regime_jobs regime per_module flat_modules in
  ∃ new,
    for_in flat_modules
      (λ '(module_name, module),
         write_module "json" (os_path_join output_dir regime) per_module
           module_name module)
      dataset_list w
    = Ok (after_jobs jobs dataset_list (sampler w)).1
         {| sampler := (after_jobs jobs dataset_list (sampler w)).2;
            trace := new ++ trace w |}
    ∧ writes new
      = map (λ f, (f.1, JsonList f.2))
          (json_files jobs dataset_list (sampler w)).
Proof.
  revert dataset_list w.
  induction flat_modules as [| [module_name module] flat_modules IH];
    intros dataset_list w; cbv zeta.
  - exists []. split; [| done]. simpl. by destruct w.
  - destruct (write_module_json regime per_module module_name module
                dataset_list w) as (new1 & Hrun1 & Hwrites1).
    cbv zeta in Hrun1, Hwrites1.
    set (r := sample_entries module (Z.to_nat per_module) (sampler w)) in *.
    destruct (IH (dataset_list ++ r.1)
                {| sampler := r.2; trace := new1 ++ trace w |})
      as (new2 & Hrun2 & Hwrites2).
    cbv zeta in Hrun2, Hwrites2. cbn [sampler trace] in Hrun2, Hwrites2.
    exists (new2 ++ new1). split.
    + cbn [for_in]. erewrite bind_Ok' by exact Hrun1. rewrite Hrun2.
      by rewrite <- app_assoc.
    + rewrite writes_app, Hwrites1, Hwrites2. reflexivity.
Qed.

Lemma json_files_app (jobs1 jobs2 : list job) dataset_list s :
  json_files (jobs1 ++ jobs2) dataset_list s
  = json_files jobs1 dataset_list s
    ++ json_files jobs2 (after_jobs jobs1 dataset_list s).1
         (after_jobs jobs1 dataset_list s).2.
Proof.
  revert dataset_list s. induction jobs1 as [| j jobs1 IH];
    intros dataset_list s; [done |].
  cbn [json_files after_jobs app]. by rewrite IH.
Qed.

Lemma after_jobs_app (jobs1 jobs2 : list job) dataset_list s :
  after_jobs (jobs1 ++ jobs2) dataset_list s
  = after_jobs jobs2 (after_jobs jobs1 dataset_list s).1
      (after_jobs jobs1 dataset_list s).2.
Proof.
  revert dataset_list s. induction jobs1 as [| j jobs1 IH];
    intros dataset_list s; [done |].
  cbn [after_jobs app]. by rewrite IH.
Qed.

Lemma json_regime_loop
    (regimes : list (string * list (string * Module_)))
    (dataset_list : list entry) (w : world) :
  (∀ regime flat_modules,
     (regime, flat_modules) ∈ regimes → is_Some (counts !! regime)) →
  let jobs := schedule_of regimes in
  ∃ new,
    for_in regimes
      (λ '(regime, flat_modules), write_regime "json" regime flat_modules)
      dataset_list w
    = Ok (after_jobs jobs dataset_list (sampler w)).1
         {| sampler := (after_jobs jobs dataset_list (sampler w)).2;
            trace := new ++ trace w |}
    ∧ writes new
      = map (λ f, (f.1, JsonList f.2))
          (json_files jobs dataset_list (sampler w)).
Proof.
  revert dataset_list w.
  induction regimes as [| [regime flat_modules] regimes IH];
    intros dataset_list w Hcounts; cbv zeta.
  - exists []. split; [| done]. simpl. by destruct w.
  - destruct (Hcounts regime flat_modules) as [per_module Hper];
      [apply list_elem_of_here |].
    set (w1 := {| sampler := sampler w;
                  trace := [Print (pretty per_module);
                            MakeDirs (os_path_join output_dir regime)]
                           ++ trace w |}).
    destruct (json_module_loop regime per_module flat_modules dataset_list w1)
      as (new1 & Hrun1 & Hwrites1).
    cbv zeta in Hrun1, Hwrites1. cbn [sampler trace] in Hrun1, Hwrites1.
    set (jobs1 := regime_jobs regime per_module flat_modules) in *.
    destruct (IH (after_jobs jobs1 dataset_list (sampler w)).1
                {| sampler := (after_jobs jobs1 dataset_list (sampler w)).2;
                   trace := new1 ++ trace w1 |})
      as (new2 & Hrun2 & Hwrites2).
    { intros r fm Hin. eapply Hcounts. by apply list_elem_of_further. }
    cbv zeta in Hrun2, Hwrites2. cbn [sampler trace] in Hrun2, Hwrites2.
    exists (new2 ++ new1 ++ [Print (pretty per_module);
                             MakeDirs (os_path_join output_dir regime)]).
    assert (schedule_of ((regime, flat_modules) :: regimes)
            = jobs1 ++ schedule_of regimes) as ->.
    { unfold schedule_of at 1. cbn [flat_map]. by rewrite Hper. }
    rewrite after_jobs_app, json_files_app. split.
    + cbn [for_in]. erewrite bind_Ok'.
      2:{ unfold write_regime. cbv zeta.
          erewrite bind_Ok by reflexivity.
          erewrite bind_Ok by (unfold counts_getitem; rewrite Hper; reflexivity).
          erewrite bind_Ok by reflexivity. exact Hrun1. }
      change (sampler w1) with (sampler w). rewrite Hrun2.
      unfold w1. cbn [trace]. by rewrite <- !app_assoc.
    + rewrite !writes_app, Hwrites1, Hwrites2, map_app. reflexivity.
Qed.

(** What the JSON files hold, one after the other. *)
Lemma json_files_chain (jobs : list job) (dataset_list : list entry) s :
  let files := json_files jobs dataset_list s in
  map fst files = map (job_path ".json") jobs
  ∧ ∀ k j content,
      jobs !! k = Some j →
      files.*2 !! k = Some content →
      ∃ own,
        length own = job_count j
        ∧ content = match k with
                    | O => dataset_list
                    | S k' => default [] (files.*2 !! k')
                    end ++ own
        ∧ length content
          = (length dataset_list
             + sum_list (take k (map job_count jobs)) + job_count j)%nat.
Proof.
  revert dataset_list s. induction jobs as [| j0 jobs IH];
    intros dataset_list s files; [done |].
  subst files. cbn [json_files].
  set (r := sample_entries (job_module j0) (job_count j0) s).
  destruct (IH (dataset_list ++ r.1) r.2) as [Hpaths Hchain].
  split; [cbn; by rewrite Hpaths |].
  intros [| k] j content Hj Hcontent.
  - cbn in Hj, Hcontent. injection Hj as <-. injection Hcontent as <-.
    exists r.1. rewrite length_app. unfold r.
    rewrite length_sample_entries. split_and!; [done | done | cbn; lia].
  - cbn in Hj. cbn [map fmap list_fmap lookup list_lookup] in Hcontent.
    change (list_fmap _ _ snd ?l) with (l.*2) in Hcontent.
    destruct (Hchain k j content Hj Hcontent) as (own & Hown & Hprev & Hlen).
    exists own. split_and!; [done | |].
    + rewrite Hprev. destruct k as [| k']; [done |]. done.
    + rewrite Hlen, length_app. unfold r.
      rewrite length_sample_entries. simpl. lia.
Qed.


(** What a JSON file holds: the content of the file before it, then the
    entries sampled for its own module from the state the sampler is in
    after the jobs before it. *)
Lemma json_files_own (jobs : list job) (dataset_list : list entry) s :
  ∀ k j content,
    jobs !! k = Some j →
    (json_files jobs dataset_list s).*2 !! k = Some content →
    content
    = match k with
      | O => dataset_list
      | S k' => default [] ((json_files jobs dataset_list s).*2 !! k')
      end
      ++ (sample_entries (job_module j) (job_count j)
            (after_jobs (take k jobs) dataset_list s).2).1.
Proof.
  revert dataset_list s. induction jobs as [| j0 jobs IH];
    intros dataset_list s k j content Hj Hcontent; [done |].
  cbn [json_files] in *.
  set (r := sample_entries (job_module j0) (job_count j0) s) in *.
  destruct k as [| k].
  - cbn in Hj, Hcontent. injection Hj as <-. by injection Hcontent as <-.
  - cbn in Hj. cbn [map fmap list_fmap lookup list_lookup] in Hcontent.
    change (list_fmap _ _ snd ?l) with (l.*2) in Hcontent.
    rewrite (IH (dataset_list ++ r.1) r.2 k j content Hj Hcontent).
    cbn [take after_jobs]. fold r. f_equal.
    destruct k as [| k']; [done |]. done.
Qed.

(** A job is asked for as many problems as its regime's count says, none
    when the count is not positive. *)
Lemma schedule_of_job_count
    (regimes : list (string * list (string * Module_))) (j : job) :
  j ∈ schedule_of regimes →
  job_count j = Z.to_nat (default 0%Z (counts !! job_regime j)).
Proof.
  intros Hj. unfold schedule_of in Hj.
  apply list_elem_of_In, in_flat_map in Hj
    as ([regime flat_modules] & _ & Hj).
  unfold regime_jobs in Hj.
  by apply in_map_iff in Hj as ([module_name module] & <- & _).
Qed.

(** C9 (as amended): with [save_format = 'json'] and a count for every
    regime, [main] ends normally having written one JSON file per module,
    in the order of the modules.  The list it dumps is created once and
    never emptied: each file holds the whole content of the file written
    before it (nothing, for the first) followed by the problems sampled for
    its own module, as many as [range(per_module)] has elements, that is
    [max(per_module, 0)].  So the first file has exactly that many entries,
    and a later one has exactly as many entries as were sampled for its own
    module only when no problem was sampled before its module. *)
Theorem main_json_files_accumulate (w : world) :
  counts_complete →
  ∃ new files w',
    main "json" w = Ok tt w'
    ∧ trace w' = new ++ trace w
    ∧ writes new = map (λ f, (f.1, JsonList f.2)) files
    ∧ map fst files = map (job_path ".json") schedule
    ∧ ∀ k j content,
        schedule !! k = Some j →
        files.*2 !! k = Some content →
        let own :=
          (sample_entries (job_module j) (job_count j)
             (after_jobs (take k schedule) [] (sampler w)).2).1 in
        job_count j = Z.to_nat (default 0%Z (counts !! job_regime j))
        ∧ length own = job_count j
        ∧ content = match k with
                    | O => []
                    | S k' => default [] (files.*2 !! k')
                    end ++ own
        ∧ length content
          = sum_list (take k (map job_count schedule)) + job_count j
        ∧ (length content = job_count j
           ↔ sum_list (take k (map job_count schedule)) = 0).
Proof.
  intros Hcounts. unfold main.
  erewrite bind_Ok by reflexivity.
  set (w1 := {| sampler := sampler w; trace := MakeDirs output_dir :: trace w |}).
  destruct (json_regime_loop filtered_modules [] w1 Hcounts)
    as (new & Hrun & Hwrites).
  cbv zeta in Hrun, Hwrites. fold schedule in Hrun, Hwrites.
  change (sampler w1) with (sampler w) in Hrun, Hwrites.
  exists (new ++ [MakeDirs output_dir]), (json_files schedule [] (sampler w)).
  eexists. split_and!.
  - erewrite bind_Ok by exact Hrun. reflexivity.
  - cbn [trace]. unfold w1. cbn [trace]. by rewrite <- app_assoc.
  - rewrite writes_app. exact Hwrites.
  - apply json_files_chain.
  - intros k j content Hj Hcontent.
    destruct (proj2 (json_files_chain schedule [] (sampler w)) k j content
                Hj Hcontent) as (own' & Hown & Hprev & Hlen).
    pose proof (json_files_own schedule [] (sampler w) k j content Hj
                  Hcontent) as Hpinned.
    cbn [length] in Hlen. cbv zeta.
    split_and!; [| | done | lia | lia].
    + apply (schedule_of_job_count filtered_modules).
      by eapply list_elem_of_lookup_2.
    + apply length_sample_entries.
Qed.

(** ** The JSON-lines format *)

Lemma jsonl_sampling_loop
    (module : Module_) (path : string) (n : nat) (w : world) :
  for_range n (λ _ : unit,
      '(q, a) ← sample module;
      dataset_dict ← load_global "dataset_dict";
      let dataset_dict := {| question := q; answer := a |} in
      _ ← emit (Write path (JsonDict dataset_dict));
      emit (Write path (Text (String "010"%char EmptyString))))
    tt w
  = match n with
    | O => Ok tt w
    | S _ =>
        Raise (NameError "dataset_dict")
          {| sampler := (sample_from_module module (sampler w)).2;
             trace := trace w |}
    end.
Proof.
  destruct n as [| n]; [done |]. cbn [for_range].
  destruct (sample_from_module module (sampler w)) as [[q a] s1] eqn:Hs.
  unfold bind. unfold mbind, M_bind, bind, sample. rewrite Hs. reflexivity.
Qed.

Lemma write_module_jsonl
    (regime : string) (per_module : Z) (module_name : string)
    (module : Module_) (dataset_list : list entry) (w : world) :
  let j := {| job_regime := regime; job_name := module_name;
              job_module := module; job_count := Z.to_nat per_module |} in
  ∃ new,
    writes new = [] ∧ opens new = [job_path ".jsonl" j]
    ∧ write_module "jsonl" (os_path_join output_dir regime) per_module
        module_name module dataset_list w
      = if decide (0 < job_count j) then
          Raise (NameError "dataset_dict")
            {| sampler := (sample_from_module module (sampler w)).2;
               trace := new ++ trace w |}
        else
          Ok dataset_list
            {| sampler := sampler w;
               trace := Print ("Wrote " +:+ job_path ".jsonl" j +:+ " with "
                               +:+ pretty per_module +:+ " examples")
                        :: new ++ trace w |}.
Proof.
  intros j. exists [Open (job_path ".jsonl" j); Print module_name].
  split_and!; [done | done |].
  unfold write_module. erewrite bind_Ok by reflexivity.
  rewrite bool_decide_false by done. rewrite bool_decide_true by done.
  cbn [job_count j]. destruct (Z.to_nat per_module) as [| n] eqn:Hn.
  - rewrite decide_False by lia. erewrite bind_Ok.
    2:{ erewrite bind_Ok by reflexivity.
        erewrite bind_Ok by (rewrite jsonl_sampling_loop; reflexivity).
        reflexivity. }
    cbv beta iota. erewrite bind_Ok by reflexivity. reflexivity.
  - rewrite decide_True by lia. erewrite bind_Raise; [reflexivity |].
    erewrite bind_Ok by reflexivity.
    erewrite bind_Raise; [reflexivity |].
    rewrite jsonl_sampling_loop. reflexivity.
Qed.


Lemma first_asked_app (jobs1 jobs2 : list job) :
  first_asked (jobs1 ++ jobs2)
  = match first_asked jobs1 with
    | Some r => Some r
    | None =>
        match first_asked jobs2 with
        | Some (before, j) => Some (jobs1 ++ before, j)
        | None => None
        end
    end.
Proof.
  induction jobs1 as [| j1 jobs1 IH]; cbn [first_asked app].
  - by destruct (first_asked jobs2) as [[before j] |].
  - destruct (decide _); [done |]. rewrite IH.
    destruct (first_asked jobs1) as [[before j] |]; [done |].
    by destruct (first_asked jobs2) as [[before j] |].
Qed.

Lemma first_asked_Some (before after : list job) (j : job) :
  Forall (λ j, job_count j = 0) before →
  0 < job_count j →
  first_asked (before ++ j :: after) = Some (before, j).
Proof.
  intros Hbefore Hj. induction Hbefore as [| j0 before Hj0 _ IH].
  - cbn [first_asked app]. by rewrite decide_True.
  - cbn [first_asked app]. rewrite decide_False by lia. by rewrite IH.
Qed.

Lemma first_asked_None (jobs : list job) :
  Forall (λ j, job_count j = 0) jobs → first_asked jobs = None.
Proof.
  induction 1 as [| j jobs Hj _ IH]; [done |].
  cbn [first_asked]. rewrite decide_False by lia. by rewrite IH.
Qed.

Lemma jsonl_module_loop
    (regime : string) (per_module : Z)
    (flat_modules : list (string * Module_)) (dataset_list : list entry)
    (w : world) :
  jsonl_run (regime_jobs regime per_module flat_modules) w dataset_list
    (for_in flat_modules
       (λ '(module_name, module),
          write_module "jsonl" (os_path_join output_dir regime) per_module
            module_name module)
       dataset_list w).
Proof.
  revert w. induction flat_modules as [| [module_name module] flat_modules IH];
    intros w.
  - exists []. split; [done |]. simpl. split; [done |]. by destruct w.
  - destruct (write_module_jsonl regime per_module module_name module
                dataset_list w) as (new1 & Hwrites1 & Hopens1 & Hrun1).
    cbv zeta in Hopens1, Hrun1. unfold jsonl_run.
    cbn [regime_jobs map first_asked for_in].
    destruct (decide (0 < _)) as [Hasked | Hnone].
    + exists new1. split_and!; [done | done |].
      by erewrite bind_Raise' by exact Hrun1.
    + erewrite bind_Ok' by exact Hrun1.
      set (w1 := {| sampler := sampler w; trace := _ |}).
      destruct (IH w1) as (new2 & Hwrites2 & Hrun2).
      set (wrote := Print _) in w1.
      exists (new2 ++ wrote :: new1). split.
      { rewrite writes_app, Hwrites2.
        change (wrote :: new1) with ([wrote] ++ new1).
        by rewrite writes_app, Hwrites1. }
      fold (regime_jobs regime per_module flat_modules).
      assert (opens (new2 ++ wrote :: new1)
                      = job_path ".jsonl"
                          {| job_regime := regime; job_name := module_name;
                             job_module := module;
                             job_count := Z.to_nat per_module |}
                        :: opens new2) as Hopens.
      { change (wrote :: new1) with ([wrote] ++ new1).
        by rewrite !opens_app, Hopens1. }
      destruct (first_asked (regime_jobs regime per_module flat_modules))
        as [[before j] |].
      * destruct Hrun2 as [Hopens2 ->]. split.
        -- by rewrite Hopens, Hopens2.
        -- unfold w1. cbn [sampler trace]. by rewrite <- app_assoc.
      * destruct Hrun2 as [Hopens2 ->]. split.
        -- by rewrite Hopens, Hopens2.
        -- unfold w1. cbn [sampler trace]. by rewrite <- app_assoc.
Qed.

Lemma jsonl_regime_loop
    (regimes : list (string * list (string * Module_)))
    (dataset_list : list entry) (w : world) :
  (∀ regime flat_modules,
     (regime, flat_modules) ∈ regimes → is_Some (counts !! regime)) →
  jsonl_run (schedule_of regimes) w dataset_list
    (for_in regimes
       (λ '(regime, flat_modules), write_regime "jsonl" regime flat_modules)
       dataset_list w).
Proof.
  revert w. induction regimes as [| [regime flat_modules] regimes IH];
    intros w Hcounts.
  - exists []. split; [done |]. simpl. split; [done |]. by destruct w.
  - destruct (Hcounts regime flat_modules) as [per_module Hper];
      [apply list_elem_of_here |].
    set (pre := [Print (pretty per_module);
                 MakeDirs (os_path_join output_dir regime)]).
    set (w1 := {| sampler := sampler w; trace := pre ++ trace w |}).
    assert (write_regime "jsonl" regime flat_modules dataset_list w
            = for_in flat_modules
                (λ '(module_name, module),
                   write_module "jsonl" (os_path_join output_dir regime)
                     per_module module_name module)
                dataset_list w1) as Hregime.
    { unfold write_regime. cbv zeta. erewrite bind_Ok by reflexivity.
      erewrite bind_Ok by (unfold counts_getitem; rewrite Hper; reflexivity).
      erewrite bind_Ok by reflexivity. reflexivity. }
    destruct (jsonl_module_loop regime per_module flat_modules dataset_list w1)
      as (new1 & Hwrites1 & Hrun1).
    set (jobs1 := regime_jobs regime per_module flat_modules) in *.
    assert (schedule_of ((regime, flat_modules) :: regimes)
            = jobs1 ++ schedule_of regimes) as ->.
    { unfold schedule_of at 1. cbn [flat_map]. by rewrite Hper. }
    unfold jsonl_run. rewrite first_asked_app. cbn [for_in].
    destruct (first_asked jobs1) as [[before j] |].
    + destruct Hrun1 as [Hopens1 Hrun1]. exists (new1 ++ pre). split_and!.
      * by rewrite writes_app, Hwrites1.
      * by rewrite opens_app, Hopens1.
      * erewrite bind_Raise'; [reflexivity |]. rewrite Hregime, Hrun1.
        unfold w1. cbn [sampler trace]. by rewrite <- app_assoc.
    + destruct Hrun1 as [Hopens1 Hrun1].
      erewrite bind_Ok' by (rewrite Hregime; exact Hrun1).
      set (w2 := {| sampler := sampler w1; trace := new1 ++ trace w1 |}).
      destruct (IH w2) as (new2 & Hwrites2 & Hrun2).
      { intros r fm Hin. eapply Hcounts. by apply list_elem_of_further. }
      exists (new2 ++ new1 ++ pre). split.
      { by rewrite !writes_app, Hwrites1, Hwrites2. }
      destruct (first_asked (schedule_of regimes)) as [[before j] |].
      * destruct Hrun2 as [Hopens2 ->]. split.
        -- rewrite !opens_app, Hopens1, Hopens2, !map_app.
           change (opens pre) with (@nil string). by rewrite app_assoc.
        -- unfold w2, w1. cbn [sampler trace]. by rewrite <- !app_assoc.
      * destruct Hrun2 as [Hopens2 ->]. split.
        -- rewrite !opens_app, Hopens1, Hopens2, !map_app.
           by change (opens pre) with (@nil string).
        -- unfold w2, w1. cbn [sampler trace]. by rewrite <- !app_assoc.
Qed.

(** C10 (as amended): with [save_format = 'jsonl'] and a count for every
    regime, [main] raises [NameError] for [dataset_dict] at the first
    problem it samples, that is in the first module whose regime asks for
    at least one problem per module; the files of the modules up to that
    one have been opened and nothing has been written into any of them.
    When no module is asked for a problem [main] ends normally, having
    opened every file and written nothing. *)
Theorem main_jsonl_name_error (w : world) :
  counts_complete →
  (∀ before j after,
     schedule = before ++ j :: after →
     Forall (λ j, job_count j = 0) before →
     0 < job_count j →
     ∃ new,
       writes new = []
       ∧ opens new = map (job_path ".jsonl") (before ++ [j])
       ∧ main "jsonl" w
         = Raise (NameError "dataset_dict")
             {| sampler := (sample_from_module (job_module j) (sampler w)).2;
                trace := new ++ trace w |})
  ∧ (Forall (λ j, job_count j = 0) schedule →
     ∃ new,
       writes new = []
       ∧ opens new = map (job_path ".jsonl") schedule
       ∧ main "jsonl" w
         = Ok tt {| sampler := sampler w; trace := new ++ trace w |}).
Proof.
  intros Hcounts.
  set (w1 := {| sampler := sampler w; trace := [MakeDirs output_dir] ++ trace w |}).
  destruct (jsonl_regime_loop filtered_modules [] w1 Hcounts)
    as (new & Hwrites & Hrun).
  fold schedule in Hrun.
  assert (main "jsonl" w
          = (_ ← for_in filtered_modules
                   (λ '(regime, flat_modules),
                      write_regime "jsonl" regime flat_modules) [];
             mret tt) w1) as Hmain.
  { unfold main. by erewrite bind_Ok by reflexivity. }
  split.
  - intros before j after Hschedule Hbefore Hj.
    rewrite Hschedule, first_asked_Some in Hrun by done.
    destruct Hrun as [Hopens Hrun].
    exists (new ++ [MakeDirs output_dir]). split_and!.
    + by rewrite writes_app, Hwrites.
    + by rewrite opens_app, Hopens.
    + rewrite Hmain. erewrite bind_Raise by exact Hrun.
      unfold w1. cbn [sampler trace]. by rewrite <- app_assoc.
  - intros Hnone. rewrite first_asked_None in Hrun by done.
    destruct Hrun as [Hopens Hrun].
    exists (new ++ [MakeDirs output_dir]). split_and!.
    + by rewrite writes_app, Hwrites.
    + by rewrite opens_app, Hopens.
    + rewrite Hmain. erewrite bind_Ok by exact Hrun.
      unfold w1. cbn [sampler trace]. by rewrite <- app_assoc.
Qed.

End WithGenerate.

(** ** On the concrete [generate] module *)

Local Open Scope nat_scope.

Lemma two_regimes_counts_complete (per_train_module per_test_module : Z) :
  counts_complete (H := two_regimes per_train_module per_test_module).
Proof.
  intros regime flat_modules Hin.
  apply elem_of_cons in Hin as [Hin | Hin].
  { injection Hin as -> _. by eexists. }
  apply elem_of_cons in Hin as [Hin | Hin].
  { injection Hin as -> _. by eexists. }
  by apply elem_of_nil in Hin.
Defined.

(** C9, refuted as stated: with a count of 0 for the training regime and
    of 3 for the test regime, the third file written, not the first, holds
    exactly [per_module = 3] entries. *)
Lemma later_json_file_has_exactly_per_module :
  ∃ w' path content,
    main (H := two_regimes 0 3) "json" (two_regimes_start 0 3) = Ok tt w'
    ∧ writes (trace w') !! 2 = Some (path, JsonList content)
    ∧ counts (Generate := two_regimes 0 3) !! "interpolate" = Some 3%Z
    ∧ length content = 3.
Proof. eexists _, _, _. vm_compute. by split_and!. Qed.

Lemma main_json_files_accumulate_witness :
  counts_complete (H := two_regimes 1 2)
  ∧ ∃ w',
      main (H := two_regimes 1 2) "json" (two_regimes_start 1 2) = Ok tt w'.
Proof.
  split; [exact (two_regimes_counts_complete 1 2) |].
  destruct (main_json_files_accumulate (H := two_regimes 1 2)
              (two_regimes_start 1 2) (two_regimes_counts_complete 1 2))
    as (new & files & w' & Hrun & _).
  exists w'. exact Hrun.
Defined.

(** C10, refuted as stated: when no module is asked for a problem, [main]
    with [save_format = 'jsonl'] ends without any [NameError]. *)
Lemma jsonl_without_problems_ends_normally :
  ∃ w',
    main (H := two_regimes 0 0) "jsonl" (two_regimes_start 0 0) = Ok tt w'.
Proof. eexists. vm_compute. reflexivity. Qed.

Lemma main_jsonl_name_error_witness :
  counts_complete (H := two_regimes 0 2)
  ∧ ∃ w',
      main (H := two_regimes 0 2) "jsonl" (two_regimes_start 0 2)
      = Raise (NameError "dataset_dict") w'.
Proof.
  split; [exact (two_regimes_counts_complete 0 2) |].
  destruct (proj1 (main_jsonl_name_error (H := two_regimes 0 2)
                     (two_regimes_start 0 2)
                     (two_regimes_counts_complete 0 2))
              [ {| job_regime := "train"; job_name := "algebra__linear_1d";
                   job_module := "linear_1d" : @Module_ (two_regimes 0 2);
                   job_count := 0 |};
                {| job_regime := "train";
                   job_name := "algebra__polynomial_roots";
                   job_module := "polynomial_roots" : @Module_ (two_regimes 0 2);
                   job_count := 0 |} ]
              {| job_regime := "interpolate";
                 job_name := "algebra__linear_1d";
                 job_module := "linear_1d" : @Module_ (two_regimes 0 2);
                 job_count := 2 |}
              [])
    as (new & _ & _ & Hrun).
  - vm_compute. reflexivity.
  - repeat constructor.
  - simpl. lia.
  - eexists. exact Hrun.
Defined.

End GenerateToFileTheory.
(** * Further properties of the algebra generators *)

Module AlgebraExtra.
Import Algebra AlgebraTheory.

(** ** The polynomial with given roots *)

Section WithCollaborators.
Context `{Collaborators}.

(** What [_polynomial_coeffs_with_roots] returns, with its scale. *)
Lemma polynomial_coeffs_returned
    (fuel : nat) (roots : list Qc) (scale_entropy : Qc) (w w' : world)
    (coeffs : list Qc) :
  _polynomial_coeffs_with_roots fuel roots scale_entropy w = Ok coeffs w' →
  ∃ scale,
    scale ≠ 0
    ∧ (¬ 0 < scale_entropy → scale = 1)
    ∧ coeffs
      = map (λ coeff,
               coeff * scale
               * Qc_of_Z (lcm_list (map denom (expand_product roots))))
          (expand_product roots).
Proof.
  destruct roots as [| root roots]; [done |].
  rewrite polynomial_coeffs_with_roots_unfold by done.
  destruct (decide (0 < scale_entropy)) as [Hpos | Hle].
  - pose proof (sample_scale_spec fuel scale_entropy w) as Hspec.
    unfold mbind, M_bind, bind.
    destruct (sample_scale fuel scale_entropy w) as [scale w1 | | w1];
      [| done | done].
    destruct Hspec as (k & _ & _ & _ & Hnz & _).
    intros [= <- _]. by exists scale.
  - intros [= <- _]. by exists 1.
Qed.

(** The same, with the scale as it was drawn. *)
Lemma polynomial_coeffs_returned_scale
    (fuel : nat) (roots : list Qc) (scale_entropy : Qc) (w w' : world)
    (coeffs : list Qc) :
  _polynomial_coeffs_with_roots fuel roots scale_entropy w = Ok coeffs w' →
  ∃ scale,
    (if decide (0 < scale_entropy)
     then ∃ k, scale = scale_draw k scale_entropy w
               ∧ (∀ j, (j < k)%nat → scale_draw j scale_entropy w = 0)
               ∧ w' = after_scale_draws (S k) scale_entropy w
     else scale = 1 ∧ w' = w)
    ∧ scale ≠ 0
    ∧ coeffs
      = map (λ coeff,
               coeff * scale
               * Qc_of_Z (lcm_list (map denom (expand_product roots))))
          (expand_product roots).
Proof.
  destruct roots as [| root roots]; [done |].
  rewrite polynomial_coeffs_with_roots_unfold by done.
  destruct (decide (0 < scale_entropy)) as [Hpos | Hle].
  - pose proof (sample_scale_spec fuel scale_entropy w) as Hspec.
    unfold mbind, M_bind, bind.
    destruct (sample_scale fuel scale_entropy w) as [scale w1 | | w1];
      [| done | done].
    destruct Hspec as (k & _ & Hzero & -> & Hnz & ->).
    intros [= <- <-]. eexists. split_and!; [| done | done]. by exists k.
  - intros [= <- <-]. by exists 1.
Qed.

Lemma integers_of_multiples (lcm : Qc) (p : list Qc) :
  Forall (λ coeff, ∃ z : Z, coeff * lcm = Qc_of_Z z) p →
  ∃ integers : list Z,
    map Qc_of_Z integers = map (λ coeff, coeff * lcm) p.
Proof.
  induction 1 as [| coeff p [z Hz] _ [integers IH]]; [by exists [] |].
  exists (z :: integers). cbn [map]. by rewrite IH, Hz.
Qed.

Lemma scaled_zero_iff_root (roots : list Qc) (scale x : Qc) :
  scale ≠ 0 →
  eval_poly
    (map (λ coeff,
            coeff * scale
            * Qc_of_Z (lcm_list (map denom (expand_product roots))))
       (expand_product roots)) x = 0
  ↔ x ∈ roots.
Proof.
  intros Hscale. rewrite eval_poly_scaled, <- eval_poly_expand_product_0.
  pose proof (lcm_denominators_ne_0 (expand_product roots)) as Hlcm.
  split.
  - intros [Hp | [Hs | Hl]%Qcmult_integral]%Qcmult_integral; done.
  - intros ->. ring.
Qed.

(** X1: the list [_polynomial_coeffs_with_roots] returns has one
    coefficient more than there are roots, and its last coefficient, the
    leading one, is not zero: the polynomial has exactly the degree
    [len(roots)]. *)
Theorem polynomial_coeffs_degree
    (fuel : nat) (roots : list Qc) (scale_entropy : Qc) (w w' : world)
    (coeffs : list Qc) :
  _polynomial_coeffs_with_roots fuel roots scale_entropy w = Ok coeffs w' →
  length coeffs = (length roots + 1)%nat
  ∧ ∃ lower leading, coeffs = lower ++ [leading] ∧ leading ≠ 0.
Proof.
  intros (scale & Hscale & _ & ->)%polynomial_coeffs_returned.
  split.
  - rewrite length_map, length_expand_product. lia.
  - destruct (expand_product_monic roots) as [q Hq].
    pose proof (lcm_denominators_ne_0 (expand_product roots)) as Hlcm.
    set (lcm := Qc_of_Z _) in *. rewrite Hq, map_app. cbn [map].
    eexists _, _. split; [reflexivity |].
    rewrite Qcmult_1_l. intros [? | ?]%Qcmult_integral; done.
Qed.

(** X2: the polynomial [_polynomial_coeffs_with_roots] returns has the
    given roots and no other: its value at [x] is zero exactly when [x] is
    one of [roots]. *)
Theorem polynomial_coeffs_roots_exact
    (fuel : nat) (roots : list Qc) (scale_entropy : Qc) (w w' : world)
    (coeffs : list Qc) :
  _polynomial_coeffs_with_roots fuel roots scale_entropy w = Ok coeffs w' →
  ∀ x, eval_poly coeffs x = 0 ↔ x ∈ roots.
Proof.
  intros (scale & Hscale & _ & ->)%polynomial_coeffs_returned x.
  by apply scaled_zero_iff_root.
Qed.

(** X3: every coefficient [_polynomial_coeffs_with_roots] returns is an
    integer times the scale: the integers are the coefficients of the
    expanded product times the least common multiple of their denominators,
    and the scale is the first drawn value that is not zero when
    [scale_entropy > 0], and 1 otherwise, the list returned then being the
    integers themselves. *)
Theorem polynomial_coeffs_integer_multiples
    (fuel : nat) (roots : list Qc) (scale_entropy : Qc) (w w' : world)
    (coeffs : list Qc) :
  _polynomial_coeffs_with_roots fuel roots scale_entropy w = Ok coeffs w' →
  let lcm := Qc_of_Z (lcm_list (map denom (expand_product roots))) in
  ∃ (scale : Qc) (integers : list Z),
    (if decide (0 < scale_entropy)
     then ∃ k, scale = scale_draw k scale_entropy w
               ∧ (∀ j, (j < k)%nat → scale_draw j scale_entropy w = 0)
               ∧ w' = after_scale_draws (S k) scale_entropy w
     else scale = 1 ∧ w' = w)
    ∧ scale ≠ 0
    ∧ map Qc_of_Z integers = map (λ coeff, coeff * lcm) (expand_product roots)
    ∧ coeffs = map (λ z, Qc_of_Z z * scale) integers
    ∧ (¬ 0 < scale_entropy → coeffs = map Qc_of_Z integers).
Proof.
  intros (scale & Hdrawn & Hscale & ->)%polynomial_coeffs_returned_scale lcm.
  destruct (integers_of_multiples lcm (expand_product roots)
              (expand_product_times_lcm_integer roots))
    as [integers Hintegers].
  assert (map (λ coeff, coeff * scale * lcm) (expand_product roots)
          = map (λ z, Qc_of_Z z * scale) integers) as Hcoeffs.
  { transitivity (map (λ c, c * scale)
                    (map (λ coeff, coeff * lcm) (expand_product roots))).
    - rewrite map_map. apply map_ext. intros coeff. ring.
    - rewrite <- Hintegers, map_map. reflexivity. }
  exists scale, integers. split_and!; [done | done | done | done |].
  intros Hle. etrans; [exact Hcoeffs |].
  rewrite decide_False in Hdrawn by done.
  destruct Hdrawn as [-> _]. apply map_ext. intros z. ring.
Qed.

(** X4: when [polynomial_roots] asks for the roots, the equality of its
    question is [Eq(e, 0)] for the expression [e] of the entity that
    [context.sample] made of [composition.Polynomial(coeffs)] (the entity's
    handle applied to a popped variable when it has no expression), and the
    numbers of its answer, in strictly ascending order, are exactly the
    zeros of the polynomial with these coefficients [coeffs]. *)
Theorem polynomial_roots_answer_is_zero_set
    (fuel : nat) (value : option Qc) (sample_args : Budget)
    (context : option Context) (w : world) :
  halts (polynomial_roots fuel value sample_args context w) →
  let peeled := (peel sample_args (rng w)).1.1 in
  let sample_args' := (peel sample_args (rng w)).1.2 in
  let scale_entropy := Qcmin (peeled / Qc_of_Z 2) 1 in
  let w0 := {| rng := (peel sample_args (rng w)).2; calls := calls w |} in
  let context0 := match context with None => Context_new | Some c => c end in
  ∃ roots w1 coeffs w2 polynomial_entity variable problem w',
    let sampled := Context_sample sample_args' [coeffs] context0 (rng w2) in
    let shown :=
      if has_expression polynomial_entity
      then expression polynomial_entity
      else handle_apply polynomial_entity variable in
    _sample_roots (peeled - scale_entropy) w0 = Ok roots w1
    ∧ _polynomial_coeffs_with_roots fuel roots scale_entropy w1
      = Ok coeffs w2
    ∧ sampled.1.1 = [polynomial_entity]
    ∧ polynomial_roots fuel value sample_args context w
      = Ok (RProblem problem) w'
    ∧ (question_template (question problem) ∈ polynomial_roots_templates →
       question_kwargs (question problem)
       = [("equality", VExpr (ops_Eq shown 0));
          ("variable", VSymbol variable)]
       ∧ ∃ solutions,
           answer problem = roots_answer solutions
           ∧ StronglySorted Qclt solutions
           ∧ ∀ x, x ∈ solutions ↔ eval_poly coeffs x = 0).
Proof.
  intros Hhalts peeled sample_args' scale_entropy w0 context0.
  destruct (polynomial_roots_shape fuel value sample_args context w)
    as (roots & w1 & Hroots & Hrun).
  fold peeled sample_args' scale_entropy w0 context0 in Hroots, Hrun.
  destruct (_polynomial_coeffs_with_roots fuel roots scale_entropy w1)
    as [coeffs w2 | | w2] eqn:Hcoeffs; [| done | by rewrite Hrun in Hhalts].
  cbv zeta in Hrun.
  destruct Hrun as (polynomial_entity & ask_roots & variable & template & w'
                    & Hentity & _ & _ & _ & Hrun).
  exists roots, w1, coeffs, w2, polynomial_entity, variable.
  eexists _, w'. cbv zeta.
  split_and!; [done | done | done | exact Hrun |].
  destruct ask_roots.
  - intros _. split; [reflexivity |].
    exists (merge_sort Qcle (remove_dups roots)).
    destruct (sorted_distinct_roots roots) as [Hsorted Hsame].
    split_and!; [done | done |]. intros x. rewrite Hsame.
    apply polynomial_coeffs_returned in Hcoeffs
      as (scale & Hscale & _ & ->).
    symmetry. by apply scaled_zero_iff_root.
  - intros Htemplate. cbn in Htemplate.
    by destruct factor_template_not_roots_template.
Qed.

(** ** The linear system that is built *)

(** X5: every system [_solve_linear_system] asks the oracle for is square:
    as many variables as solutions, [degree] of each, with the solution of
    index 0 as the one that must not be trivial, and the given [value],
    when there is one, as that solution. *)
Theorem solve_linear_system_is_square
    (fuel : nat) (degree : Z) (value : option Qc) (sample_args : Budget)
    (context : option Context) (w : world) :
  (1 ≤ degree)%Z →
  ∃ new,
    calls_since w
      (final_world
         (_solve_linear_system fuel degree value sample_args context w))
      new
    ∧ ∀ variables solutions entropy index,
        CallLinearSystem variables solutions entropy index ∈ new →
        length variables = Z.to_nat degree
        ∧ length solutions = Z.to_nat degree
        ∧ index = 0%nat
        ∧ ∀ v, value = Some v → solutions !! 0%nat = Some v.
Proof.
  intros Hdegree.
  destruct (solve_linear_system_run fuel degree value sample_args context w
              Hdegree)
    as (raw & extra & variables & context1 & w1 & Hraw & Hextra & Hvars
        & Hcalls & Hrun).
  cbv zeta in *.
  set (given := match value with Some v => [v] | None => [] end) in *.
  set (entropy := Qcmax 1 _) in *.
  pose proof (construct_equations_spec variables (given ++ extra) entropy 0
                (peel sample_args (rng w)).1.2 fuel w1) as Hloop.
  assert (∃ k,
    calls (final_world
             (_solve_linear_system fuel degree value sample_args context w))
    = replicate k (CallLinearSystem variables (given ++ extra) entropy 0)
      ++ calls w1) as (k & Hfinal).
  { destruct (construct_equations _ _ _ _ _ _ _) as [equations w2 | | w2].
    - destruct Hloop as (k & _ & _ & _ & _ & ->).
      destruct Hrun as (variable & answer_ & w3 & _ & _ & Hcalls3 & ->).
      exists (S k). cbn [final_world]. rewrite Hcalls3.
      apply calls_after_constructions.
    - done.
    - destruct Hloop as [_ ->]. rewrite Hrun. exists fuel.
      apply calls_after_constructions. }
  eexists. split.
  { unfold calls_since. rewrite Hfinal, Hcalls, app_assoc. reflexivity. }
  intros variables' solutions' entropy' index [Hin | Hin]%elem_of_app.
  - apply elem_of_replicate in Hin as [[= -> -> -> ->] _].
    assert (length given ≤ 1)%nat by (unfold given; destruct value; simpl; lia).
    split_and!; [done | | done |].
    + rewrite length_app, Hextra, Hraw. lia.
    + intros v ->. done.
  - rewrite list_elem_of_In, <- in_rev, <- list_elem_of_In in Hin.
    apply list_elem_of_fmap in Hin as (e & [=] & _).
Qed.

(** ** The registry *)

Lemma sequence_next_term_returns (min_entropy max_entropy : Qc) (w : world) :
  ∃ problem w', sequence_next_term min_entropy max_entropy w = Ok problem w'.
Proof.
  unfold sequence_next_term.
  erewrite bind_Ok by reflexivity. erewrite bind_Ok by reflexivity.
  destruct (Context_pop _ _).1 as [variable context].
  match goal with |- context [PolynomialSequence_init ?v ?e 1 3 ≫= _] =>
    match goal with |- context [mbind _ _ ?w1] =>
      destruct (PolynomialSequence_init_spec v e 1 3 w1 ltac:(lia))
        as (sequence & w2 & Hinit & _)
    end
  end.
  erewrite bind_Ok by exact Hinit. cbv zeta.
  erewrite bind_Ok by reflexivity.
  match goal with |- context [choice ?l ≫= _] =>
    match goal with |- context [mbind _ _ ?w3] =>
      destruct (choice_Ok l w3 ltac:(done)) as (template & _ & Htemplate)
    end
  end.
  erewrite bind_Ok by exact Htemplate. by eexists _, _.
Qed.

Lemma sequence_nth_term_returns (min_entropy max_entropy : Qc) (w : world) :
  ∃ problem w', sequence_nth_term min_entropy max_entropy w = Ok problem w'.
Proof.
  unfold sequence_nth_term.
  erewrite bind_Ok by reflexivity. erewrite bind_Ok by reflexivity.
  destruct (Context_pop _ _).1 as [variable context].
  match goal with |- context [PolynomialSequence_init ?v ?e 1 3 ≫= _] =>
    match goal with |- context [mbind _ _ ?w1] =>
      destruct (PolynomialSequence_init_spec v e 1 3 w1 ltac:(lia))
        as (sequence & w2 & Hinit & _)
    end
  end.
  erewrite bind_Ok by exact Hinit. cbv zeta.
  erewrite bind_Ok by reflexivity.
  match goal with |- context [choice ?l ≫= _] =>
    match goal with |- context [mbind _ _ ?w3] =>
      destruct (choice_Ok l w3 ltac:(done)) as (template & _ & Htemplate)
    end
  end.
  erewrite bind_Ok by exact Htemplate. by eexists _, _.
Qed.

Lemma polynomial_roots_returns_problem
    (fuel : nat) (value : option Qc) (sample_args : Budget)
    (context : option Context) (w : world) :
  halts (polynomial_roots fuel value sample_args context w) →
  ∃ problem w',
    polynomial_roots fuel value sample_args context w
    = Ok (RProblem problem) w'.
Proof.
  intros Hhalts.
  destruct (polynomial_roots_run fuel value sample_args context w)
    as (roots & w1 & _ & Hrun). cbv zeta in Hrun.
  destruct (_polynomial_coeffs_with_roots _ _ _ _)
    as [coeffs w2 | | w2]; [| done | by rewrite Hrun in Hhalts].
  destruct Hrun as (_ & problem & _ & w' & Hrun & _). by exists problem, w'.
Qed.

Lemma solve_linear_top_level_returns_problem
    (fuel : nat) (degree : Z) (value : option Qc) (sample_args : Budget)
    (w : world) :
  (1 ≤ degree)%Z →
  halts (_solve_linear_system fuel degree value sample_args None w) →
  ∃ problem w',
    _solve_linear_system fuel degree value sample_args None w
    = Ok (RProblem problem) w'.
Proof.
  intros Hdegree Hhalts.
  destruct (solve_linear_system_run fuel degree value sample_args None w
              Hdegree)
    as (raw & extra & variables & context1 & w1 & _ & _ & _ & _ & Hrun).
  cbv zeta in Hrun.
  pose proof (construct_equations_spec variables
    (match value with Some v => [v] | None => [] end ++ extra)
    (Qcmax 1 ((peel sample_args (rng w)).1.1 - Qcsum (map (Qcmax 1) raw))) 0
    (peel sample_args (rng w)).1.2 fuel w1) as Hloop.
  destruct (construct_equations _ _ _ _ _ _ _) as [equations w2 | | w2].
  - destruct Hrun as (variable & answer_ & w3 & _ & _ & _ & Hrun).
    by eexists _, _.
  - done.
  - by rewrite Hrun in Hhalts.
Qed.

Section Registry.
Variable PreSampleArgs : Z → Z → Qc → Qc → Budget.

Lemma make_modules_return_problems
    (entropy : Qc * Qc) (name : string) (module : Module_) (fuel : nat)
    (w : world) :
  (name, module) ∈ _make_modules PreSampleArgs entropy →
  halts (module fuel w) →
  ∃ problem w', module fuel w = Ok (RProblem problem) w'.
Proof.
  unfold _make_modules. cbv zeta. intros Hin.
  repeat (apply elem_of_cons in Hin as [[= _ ->] | Hin]);
    [.. | by apply elem_of_nil in Hin].
  - apply polynomial_roots_returns_problem.
  - apply polynomial_roots_returns_problem.
  - apply solve_linear_top_level_returns_problem. lia.
  - apply solve_linear_top_level_returns_problem. lia.
  - apply solve_linear_top_level_returns_problem. lia.
  - apply solve_linear_top_level_returns_problem. lia.
  - intros _. unfold sequence_module.
    destruct (sequence_next_term_returns entropy.1 entropy.2 w)
      as (problem & w' & Hrun).
    erewrite bind_Ok by exact Hrun. by eexists _, _.
  - intros _. unfold sequence_module.
    destruct (sequence_nth_term_returns entropy.1 entropy.2 w)
      as (problem & w' & Hrun).
    erewrite bind_Ok by exact Hrun. by eexists _, _.
Qed.

(** X6: every module of the registries of [train], [test] and
    [test_extra] is a top-level producer: a call that comes back returns a
    rendered problem, never an entity, and does not raise. *)
Theorem registry_modules_return_problems
    (entropy_fn : Qc * Qc → Qc * Qc) (registry : list (string * Module_))
    (name : string) (module : Module_) (fuel : nat) (w : world) :
  registry ∈ [train PreSampleArgs entropy_fn; test PreSampleArgs;
              test_extra PreSampleArgs] →
  (name, module) ∈ registry →
  halts (module fuel w) →
  ∃ problem w', module fuel w = Ok (RProblem problem) w'.
Proof.
  intros Hregistry.
  repeat (apply elem_of_cons in Hregistry as [-> | Hregistry]);
    [.. | by apply elem_of_nil in Hregistry].
  - apply make_modules_return_problems.
  - apply make_modules_return_problems.
  - unfold test_extra. cbv zeta. intros [= _ ->]%list_elem_of_singleton.
    apply polynomial_roots_returns_problem.
Qed.

End Registry.

End WithCollaborators.

(** ** On the concrete collaborators *)

Lemma polynomial_coeffs_on_tape :
  ∃ coeffs w',
    _polynomial_coeffs_with_roots (H := tape) 3
      [Qc_of_Z 2; Qc_of_Z 2; Qc_of_Z (-3)] 1 (tape_world [0; 4]%nat)
    = Ok coeffs w'.
Proof. eexists _, _. vm_compute. reflexivity. Defined.

Lemma polynomial_coeffs_degree_witness :
  ∃ coeffs w',
    _polynomial_coeffs_with_roots (H := tape) 3
      [Qc_of_Z 2; Qc_of_Z 2; Qc_of_Z (-3)] 1 (tape_world [0; 4]%nat)
    = Ok coeffs w'
    ∧ length coeffs = 4%nat.
Proof.
  destruct polynomial_coeffs_on_tape as (coeffs & w' & Hrun).
  exists coeffs, w'. split; [exact Hrun |].
  exact (proj1 (polynomial_coeffs_degree (H := tape) _ _ _ _ _ _ Hrun)).
Defined.

Lemma polynomial_coeffs_roots_exact_witness :
  ∃ coeffs w',
    _polynomial_coeffs_with_roots (H := tape) 3
      [Qc_of_Z 2; Qc_of_Z 2; Qc_of_Z (-3)] 1 (tape_world [0; 4]%nat)
    = Ok coeffs w'
    ∧ eval_poly coeffs (Qc_of_Z (-3)) = 0.
Proof.
  destruct polynomial_coeffs_on_tape as (coeffs & w' & Hrun).
  exists coeffs, w'. split; [exact Hrun |].
  apply (polynomial_coeffs_roots_exact (H := tape) _ _ _ _ _ _ Hrun).
  apply list_elem_of_further, list_elem_of_further, list_elem_of_here.
Defined.

Lemma polynomial_coeffs_integer_multiples_witness :
  ∃ coeffs w' scale integers,
    _polynomial_coeffs_with_roots (H := tape) 3
      [Qc_of_Z 2; Qc_of_Z 2; Qc_of_Z (-3)] 1 (tape_world [0; 4]%nat)
    = Ok coeffs w'
    ∧ coeffs = map (λ z, Qc_of_Z z * scale) integers.
Proof.
  destruct polynomial_coeffs_on_tape as (coeffs & w' & Hrun).
  destruct (polynomial_coeffs_integer_multiples (H := tape) _ _ _ _ _ _ Hrun)
    as (scale & integers & _ & _ & _ & Hall & _).
  exists coeffs, w', scale, integers. split; [exact Hrun | exact Hall].
Defined.

Lemma polynomial_roots_answer_is_zero_set_witness :
  ∃ problem w',
    polynomial_roots (H := tape) 3 None (tape_args 1) None
      (tape_world [0; 1; 5; 5; 2; 1; 1; 0; 0]%nat)
    = Ok (RProblem problem) w'.
Proof.
  assert (halts (polynomial_roots (H := tape) 3 None (tape_args 1) None
                   (tape_world [0; 1; 5; 5; 2; 1; 1; 0; 0]%nat)))
    as Hhalts by (vm_compute; exact I).
  destruct (polynomial_roots_answer_is_zero_set (H := tape) 3 None
              (tape_args 1) None
              (tape_world [0; 1; 5; 5; 2; 1; 1; 0; 0]%nat) Hhalts)
    as (roots & w1 & coeffs & w2 & polynomial_entity & variable & problem
        & w' & _ & _ & _ & Hrun & _).
  exists problem, w'. exact Hrun.
Defined.

Lemma solve_linear_system_is_square_witness :
  ∃ new,
    calls_since (tape_world [5; 4; 0; 0; 1]%nat)
      (final_world (_solve_linear_system (H := tape) 3 2 None (tape_args 2)
                      None (tape_world [5; 4; 0; 0; 1]%nat)))
      new.
Proof.
  destruct (solve_linear_system_is_square (H := tape) 3 2 None (tape_args 2)
              None (tape_world [5; 4; 0; 0; 1]%nat) ltac:(lia))
    as (new & Hcalls & _).
  exists new. exact Hcalls.
Defined.

Lemma registry_modules_return_problems_witness :
  ∃ problem w',
    sequence_module sequence_next_term _ENTROPY_INTERPOLATE 0%nat
      (tape_world [0; 1]%nat)
    = Ok (RProblem problem) w'.
Proof.
  apply (registry_modules_return_problems (H := tape) tape_PreSampleArgs
           (λ entropy, entropy) (test tape_PreSampleArgs)
           "sequence_next_term").
  - apply list_elem_of_further, list_elem_of_here.
  - unfold test, _make_modules. cbv zeta.
    do 6 apply list_elem_of_further. apply list_elem_of_here.
  - vm_compute. exact I.
Defined.

End AlgebraExtra.

(** * More on [generate_to_file.main] *)

Module GenerateToFileExtra.
Import GenerateToFile GenerateToFileTheory.

Local Open Scope nat_scope.

(** A [for] loop over a list in two parts. *)
Lemma for_in_app_Ok
    {W A S} (l1 l2 : list A) (body : A → S → M W S) (s s1 : S) (w w1 : W) :
  for_in l1 body s w = Ok s1 w1 →
  for_in (l1 ++ l2) body s w = for_in l2 body s1 w1.
Proof.
  revert s w. induction l1 as [| x l1 IH]; intros s w Hrun.
  - cbn in Hrun. unfold ret in Hrun. by injection Hrun as -> ->.
  - cbn [for_in app] in *. unfold bind in *.
    destruct (body x s w) as [s' w' | e w' | w']; [| done | done].
    by apply IH.
Qed.

Section WithGenerate.
Context `{Generate}.

(** ** The text format *)

Lemma txt_sampling_loop
    (module : Module_) (path : string) (n : nat) (w : world) :
  ∃ new,
    for_range n (λ _ : unit,
        '(q, a) ← sample module;
        _ ← emit (Write path (Text (q +:+ String "010"%char EmptyString)));
        emit (Write path (Text (a +:+ String "010"%char EmptyString))))
      tt w
    = Ok tt {| sampler := (sample_entries module n (sampler w)).2;
               trace := new ++ trace w |}
    ∧ writes new
      = map (pair path)
          (flat_map entry_lines (sample_entries module n (sampler w)).1)
    ∧ opens new = [].
Proof.
  revert w. induction n as [| n IH]; intros w.
  - exists []. split_and!; [| done | done]. simpl. by destruct w.
  - cbn [for_range sample_entries].
    destruct (sample_from_module module (sampler w)) as [[q a] s1] eqn:Hs.
    set (w1 := {| sampler := s1;
                  trace := [Write path (Text (a +:+ String "010"%char EmptyString));
                            Write path (Text (q +:+ String "010"%char EmptyString))]
                           ++ trace w |}).
    destruct (IH w1) as (new & Hrun & Hwrites & Hopens).
    cbn [sampler trace w1] in Hrun, Hwrites.
    eexists (new ++ [_; _]). split_and!.
    + erewrite bind_Ok'.
      2:{ erewrite bind_Ok by (unfold sample; rewrite Hs; reflexivity).
          cbn [fst snd]. erewrite bind_Ok by reflexivity. reflexivity. }
      etrans; [exact Hrun |]. cbn [fst snd]. by rewrite <- app_assoc.
    + rewrite writes_app, Hwrites. reflexivity.
    + rewrite opens_app, Hopens. reflexivity.
Qed.

Lemma write_module_txt
    (regime : string) (per_module : Z) (module_name : string)
    (module : Module_) (dataset_list : list entry) (w : world) :
  let j := {| job_regime := regime; job_name := module_name;
              job_module := module; job_count := Z.to_nat per_module |} in
  let r := sample_entries module (Z.to_nat per_module) (sampler w) in
  ∃ new,
    write_module "txt" (os_path_join output_dir regime) per_module
      module_name module dataset_list w
    = Ok dataset_list {| sampler := r.2; trace := new ++ trace w |}
    ∧ writes new = map (pair (job_path ".txt" j)) (flat_map entry_lines r.1)
    ∧ opens new = [job_path ".txt" j].
Proof.
  intros j r. unfold write_module.
  erewrite bind_Ok by reflexivity.
  rewrite bool_decide_false by done. rewrite bool_decide_false by done.
  rewrite bool_decide_true by done.
  set (w1 := {| sampler := sampler w;
                trace := [Open (job_path ".txt" j); Print module_name]
                         ++ trace w |}).
  destruct (txt_sampling_loop module (job_path ".txt" j)
              (Z.to_nat per_module) w1) as (new & Hrun & Hwrites & Hopens).
  cbn [sampler trace w1] in Hrun, Hwrites. fold r in Hrun, Hwrites.
  erewrite bind_Ok.
  2:{ erewrite bind_Ok by reflexivity.
      erewrite bind_Ok by exact Hrun. reflexivity. }
  cbv beta iota. erewrite bind_Ok by reflexivity.
  cbn [sampler trace].
  exists (Print ("Wrote " +:+ job_path ".txt" j +:+ " with "
                 +:+ pretty per_module +:+ " examples")
          :: new ++ [Open (job_path ".txt" j); Print module_name]).
  split_and!.
  - cbn [app]. rewrite <- app_assoc. reflexivity.
  - change (?x :: new ++ ?l) with ([x] ++ new ++ l).
    rewrite !writes_app, Hwrites.
    change (writes [_; _]) with (@nil (string * written)).
    change (writes [_]) with (@nil (string * written)).
    by rewrite app_nil_r.
  - change (?x :: new ++ ?l) with ([x] ++ new ++ l).
    rewrite !opens_app, Hopens. reflexivity.
Qed.

Lemma txt_writes_app (jobs1 jobs2 : list job) dataset_list s :
  txt_writes (jobs1 ++ jobs2) s
  = txt_writes jobs1 s
    ++ txt_writes jobs2 (after_jobs jobs1 dataset_list s).2.
Proof.
  revert dataset_list s. induction jobs1 as [| j jobs1 IH];
    intros dataset_list s; [done |].
  cbn [txt_writes after_jobs app]. rewrite <- app_assoc. f_equal. apply IH.
Qed.

(** The sampler's state after the jobs does not depend on the list. *)
Lemma after_jobs_sampler (jobs : list job) (l1 l2 : list entry) s :
  (after_jobs jobs l1 s).2 = (after_jobs jobs l2 s).2.
Proof.
  revert l1 l2 s. induction jobs as [| j jobs IH]; intros l1 l2 s; [done |].
  cbn [after_jobs]. apply IH.
Qed.

Lemma txt_module_loop
    (regime : string) (per_module : Z)
    (flat_modules : list (string * Module_)) (dataset_list : list entry)
    (w : world) :
  let jobs := regime_jobs regime per_module flat_modules in
  ∃ new,
    for_in flat_modules
      (λ '(module_name, module),
         write_module "txt" (os_path_join output_dir regime) per_module
           module_name module)
      dataset_list w
    = Ok dataset_list
         {| sampler := (after_jobs jobs dataset_list (sampler w)).2;
            trace := new ++ trace w |}
    ∧ writes new = txt_writes jobs (sampler w)
    ∧ opens new = map (job_path ".txt") jobs.
Proof.
  revert w.
  induction flat_modules as [| [module_name module] flat_modules IH];
    intros w; cbv zeta.
  - exists []. split_and!; [| done | done]. simpl. by destruct w.
  - destruct (write_module_txt regime per_module module_name module
                dataset_list w) as (new1 & Hrun1 & Hwrites1 & Hopens1).
    cbv zeta in Hrun1, Hwrites1, Hopens1.
    set (r := sample_entries module (Z.to_nat per_module) (sampler w)) in *.
    destruct (IH {| sampler := r.2; trace := new1 ++ trace w |})
      as (new2 & Hrun2 & Hwrites2 & Hopens2).
    cbv zeta in Hrun2, Hwrites2, Hopens2.
    cbn [sampler trace] in Hrun2, Hwrites2.
    exists (new2 ++ new1). split_and!.
    + cbn [for_in]. erewrite bind_Ok' by exact Hrun1. rewrite Hrun2.
      rewrite <- app_assoc. cbn [regime_jobs map after_jobs job_module job_count].
      fold r. do 2 f_equal. apply after_jobs_sampler.
    + rewrite writes_app, Hwrites1, Hwrites2. reflexivity.
    + rewrite opens_app, Hopens1, Hopens2. reflexivity.
Qed.

(** The loop over the regimes comes to a regime that has its count. *)
Lemma write_regime_counted
    (save_format regime : string) (flat_modules : list (string * Module_))
    (per_module : Z) (dataset_list : list entry) (w : world) :
  counts !! regime = Some per_module →
  write_regime save_format regime flat_modules dataset_list w
  = for_in flat_modules
      (λ '(module_name, module),
         write_module save_format (os_path_join output_dir regime)
           per_module module_name module)
      dataset_list
      {| sampler := sampler w;
         trace := [Print (pretty per_module);
                   MakeDirs (os_path_join output_dir regime)] ++ trace w |}.
Proof.
  intros Hper. unfold write_regime. cbv zeta.
  erewrite bind_Ok by reflexivity.
  erewrite bind_Ok by (unfold counts_getitem; rewrite Hper; reflexivity).
  erewrite bind_Ok by reflexivity. reflexivity.
Qed.

Lemma schedule_of_cons
    (regime : string) (flat_modules : list (string * Module_))
    (regimes : list (string * list (string * Module_))) :
  schedule_of ((regime, flat_modules) :: regimes)
  = regime_jobs regime (default 0%Z (counts !! regime)) flat_modules
    ++ schedule_of regimes.
Proof. reflexivity. Qed.

Lemma txt_regime_loop
    (regimes : list (string * list (string * Module_)))
    (dataset_list : list entry) (w : world) :
  (∀ regime flat_modules,
     (regime, flat_modules) ∈ regimes → is_Some (counts !! regime)) →
  let jobs := schedule_of regimes in
  ∃ new,
    for_in regimes
      (λ '(regime, flat_modules), write_regime "txt" regime flat_modules)
      dataset_list w
    = Ok dataset_list
         {| sampler := (after_jobs jobs dataset_list (sampler w)).2;
            trace := new ++ trace w |}
    ∧ writes new = txt_writes jobs (sampler w)
    ∧ opens new = map (job_path ".txt") jobs.
Proof.
  revert w. induction regimes as [| [regime flat_modules] regimes IH];
    intros w Hcounts; cbv zeta.
  - exists []. split_and!; [| done | done]. simpl. by destruct w.
  - destruct (Hcounts regime flat_modules) as [per_module Hper];
      [apply list_elem_of_here |].
    set (pre := [Print (pretty per_module);
                 MakeDirs (os_path_join output_dir regime)]).
    set (w1 := {| sampler := sampler w; trace := pre ++ trace w |}).
    destruct (txt_module_loop regime per_module flat_modules dataset_list w1)
      as (new1 & Hrun1 & Hwrites1 & Hopens1).
    cbv zeta in Hrun1, Hwrites1, Hopens1.
    cbn [sampler trace w1] in Hrun1, Hwrites1.
    set (jobs1 := regime_jobs regime per_module flat_modules) in *.
    destruct (IH {| sampler := (after_jobs jobs1 dataset_list (sampler w)).2;
                    trace := new1 ++ trace w1 |})
      as (new2 & Hrun2 & Hwrites2 & Hopens2).
    { intros r fm Hin. eapply Hcounts. by apply list_elem_of_further. }
    cbv zeta in Hrun2, Hwrites2, Hopens2.
    cbn [sampler trace] in Hrun2, Hwrites2.
    exists (new2 ++ new1 ++ pre).
    rewrite schedule_of_cons, Hper. cbn [default]. fold jobs1.
    split_and!.
    + cbn [for_in]. erewrite bind_Ok'.
      2:{ erewrite write_regime_counted by exact Hper. exact Hrun1. }
      etrans; [exact Hrun2 |]. rewrite after_jobs_app.
      rewrite (after_jobs_sampler (schedule_of regimes)
                 (after_jobs jobs1 dataset_list (sampler w)).1 dataset_list).
      unfold w1. cbn [trace]. by rewrite <- !app_assoc.
    + rewrite !writes_app, Hwrites1, Hwrites2.
      by rewrite (txt_writes_app jobs1 _ dataset_list).
    + rewrite !opens_app, Hopens1, Hopens2, map_app. reflexivity.
Qed.

Lemma main_txt_run (w : world) :
  counts_complete →
  ∃ new,
    main "txt" w
    = Ok tt {| sampler := (after_jobs schedule [] (sampler w)).2;
               trace := new ++ trace w |}
    ∧ writes new = txt_writes schedule (sampler w)
    ∧ opens new = map (job_path ".txt") schedule.
Proof.
  intros Hcounts. unfold main.
  erewrite bind_Ok by reflexivity.
  set (w1 := {| sampler := sampler w; trace := MakeDirs output_dir :: trace w |}).
  destruct (txt_regime_loop filtered_modules [] w1 Hcounts)
    as (new & Hrun & Hwrites & Hopens).
  cbv zeta in Hrun, Hwrites, Hopens. fold schedule in Hrun, Hwrites, Hopens.
  change (sampler w1) with (sampler w) in Hrun, Hwrites.
  exists (new ++ [MakeDirs output_dir]). split_and!.
  - erewrite bind_Ok by exact Hrun. unfold w1. cbn [trace].
    by rewrite <- app_assoc.
  - rewrite writes_app. exact Hwrites.
  - rewrite opens_app. exact Hopens.
Qed.

Lemma main_json_run (w : world) :
  counts_complete →
  ∃ new,
    main "json" w
    = Ok tt {| sampler := (after_jobs schedule [] (sampler w)).2;
               trace := new ++ trace w |}
    ∧ writes new
      = map (λ f, (f.1, JsonList f.2)) (json_files schedule [] (sampler w)).
Proof.
  intros Hcounts. unfold main.
  erewrite bind_Ok by reflexivity.
  set (w1 := {| sampler := sampler w; trace := MakeDirs output_dir :: trace w |}).
  destruct (json_regime_loop filtered_modules [] w1 Hcounts)
    as (new & Hrun & Hwrites).
  cbv zeta in Hrun, Hwrites. fold schedule in Hrun, Hwrites.
  change (sampler w1) with (sampler w) in Hrun, Hwrites.
  exists (new ++ [MakeDirs output_dir]). split.
  - erewrite bind_Ok by exact Hrun. unfold w1. cbn [trace].
    by rewrite <- app_assoc.
  - rewrite writes_app. exact Hwrites.
Qed.

Lemma length_txt_writes (jobs : list job) (s : Sampler) :
  length (txt_writes jobs s) = 2 * sum_list (map job_count jobs).
Proof.
  revert s. induction jobs as [| j jobs IH]; intros s; [done |].
  cbn [txt_writes map sum_list sum_list_with].
  rewrite length_app, length_map, IH.
  rewrite (flat_map_constant_length (c := 2)) by done.
  rewrite length_sample_entries. unfold id. lia.
Qed.

(** The lines of the text files, one file after the other, are the lines
    of the accumulated list. *)
Lemma txt_writes_entries (jobs : list job) (dataset_list : list entry) s :
  flat_map entry_lines dataset_list ++ map snd (txt_writes jobs s)
  = flat_map entry_lines (after_jobs jobs dataset_list s).1.
Proof.
  revert dataset_list s. induction jobs as [| j jobs IH];
    intros dataset_list s.
  - cbn. by rewrite app_nil_r.
  - cbn [txt_writes after_jobs]. rewrite <- IH, flat_map_app, map_app.
    rewrite <- app_assoc. do 2 f_equal.
    rewrite map_map. cbn [snd]. by rewrite map_id.
Qed.

(** The last JSON file holds the accumulated list. *)
Lemma json_files_last (jobs : list job) (dataset_list : list entry) s f :
  last (json_files jobs dataset_list s) = Some f →
  f.2 = (after_jobs jobs dataset_list s).1.
Proof.
  revert dataset_list s. induction jobs as [| j jobs IH];
    intros dataset_list s Hlast; [done |].
  cbn [json_files after_jobs] in *. rewrite last_cons in Hlast.
  destruct (last (json_files jobs _ _)) as [f' |] eqn:Hrest.
  - injection Hlast as ->. by apply IH.
  - injection Hlast as <-. apply last_None in Hrest.
    destruct jobs as [| j' jobs]; [done | discriminate Hrest].
Qed.

(** X7: with [save_format = 'txt'] and a count for every regime, [main]
    ends normally having opened one text file per module, in the order of
    the modules, and written into each the question and the answer of the
    [per_module] problems sampled for that module, each on a line of its
    own: two lines per problem, and nothing of an earlier module. *)
Theorem main_txt_two_lines_per_problem (w : world) :
  counts_complete →
  ∃ new w',
    main "txt" w = Ok tt w'
    ∧ trace w' = new ++ trace w
    ∧ opens new = map (job_path ".txt") schedule
    ∧ writes new = txt_writes schedule (sampler w)
    ∧ length (writes new) = 2 * sum_list (map job_count schedule).
Proof.
  intros Hcounts.
  destruct (main_txt_run w Hcounts) as (new & Hrun & Hwrites & Hopens).
  exists new. eexists. split_and!; [exact Hrun | done | done | done |].
  rewrite Hwrites. apply length_txt_writes.
Qed.

(** X8: the text format and the JSON format carry the same problems.  Run
    from the same start with a count for every regime, both end normally
    with the sampler in the same state, and the lines of the text files,
    taken in the order written, are the questions and answers of the last
    JSON file, entry by entry. *)
Theorem main_txt_lines_are_last_json_file (w : world) :
  counts_complete →
  ∃ txt_new json_new w_txt w_json,
    main "txt" w = Ok tt w_txt
    ∧ trace w_txt = txt_new ++ trace w
    ∧ main "json" w = Ok tt w_json
    ∧ trace w_json = json_new ++ trace w
    ∧ sampler w_txt = sampler w_json
    ∧ ∀ path content,
        last (writes json_new) = Some (path, JsonList content) →
        map snd (writes txt_new) = flat_map entry_lines content.
Proof.
  intros Hcounts.
  destruct (main_txt_run w Hcounts) as (txt_new & Htxt & Hwrites_txt & _).
  destruct (main_json_run w Hcounts) as (json_new & Hjson & Hwrites_json).
  exists txt_new, json_new. eexists _, _.
  split_and!; [exact Htxt | done | exact Hjson | done | done |].
  intros path content Hlast.
  rewrite Hwrites_json in Hlast.
  change (map ?f ?l) with (f <$> l) in Hlast. rewrite fmap_last in Hlast.
  destruct (last (json_files schedule [] (sampler w))) as [f |] eqn:Hf;
    [| done].
  injection Hlast as _ <-.
  rewrite (json_files_last _ _ _ _ Hf), Hwrites_txt.
  by rewrite <- txt_writes_entries.
Qed.

(** ** An unknown format *)

Lemma write_module_unknown
    (save_format regime_dir : string) (per_module : Z) (module_name : string)
    (module : Module_) (dataset_list : list entry) (w : world) :
  save_format ∉ ["json"; "jsonl"; "txt"] →
  write_module save_format regime_dir per_module module_name module
    dataset_list w
  = Raise (ValueError ("Unknown save format: " +:+ save_format))
      {| sampler := sampler w; trace := Print module_name :: trace w |}.
Proof.
  intros Hfmt. unfold write_module.
  erewrite bind_Ok by reflexivity.
  rewrite !bool_decide_false by (intros ->; apply Hfmt; repeat constructor).
  reflexivity.
Qed.

Lemma unknown_regime_loop
    (save_format : string)
    (regimes : list (string * list (string * Module_)))
    (dataset_list : list entry) (w : world) :
  save_format ∉ ["json"; "jsonl"; "txt"] →
  (∀ regime flat_modules,
     (regime, flat_modules) ∈ regimes → is_Some (counts !! regime)) →
  ∃ new,
    writes new = [] ∧ opens new = []
    ∧ for_in regimes
        (λ '(regime, flat_modules),
           write_regime save_format regime flat_modules)
        dataset_list w
      = match schedule_of regimes with
        | [] => Ok dataset_list
        | _ :: _ =>
            Raise (ValueError ("Unknown save format: " +:+ save_format))
        end {| sampler := sampler w; trace := new ++ trace w |}.
Proof.
  intros Hfmt. revert w.
  induction regimes as [| [regime flat_modules] regimes IH];
    intros w Hcounts.
  - exists []. split_and!; [done | done |]. simpl. by destruct w.
  - destruct (Hcounts regime flat_modules) as [per_module Hper];
      [apply list_elem_of_here |].
    set (pre := [Print (pretty per_module);
                 MakeDirs (os_path_join output_dir regime)]).
    set (w1 := {| sampler := sampler w; trace := pre ++ trace w |}).
    rewrite schedule_of_cons, Hper. cbn [default for_in].
    destruct flat_modules as [| [module_name module] flat_modules].
    + destruct (IH w1) as (new & Hwrites & Hopens & Hrun).
      { intros r fm Hin. eapply Hcounts. by apply list_elem_of_further. }
      exists (new ++ pre). split_and!.
      * by rewrite writes_app, Hwrites.
      * by rewrite opens_app, Hopens.
      * erewrite bind_Ok'.
        2:{ erewrite write_regime_counted by exact Hper. reflexivity. }
        fold pre. fold w1. rewrite Hrun. cbn [regime_jobs map app].
        unfold w1. cbn [sampler trace]. by rewrite <- app_assoc.
    + exists (Print module_name :: pre). split_and!; [done | done |].
      cbn [regime_jobs map app].
      erewrite bind_Raise'; [reflexivity |].
      erewrite write_regime_counted by exact Hper. cbn [for_in].
      erewrite bind_Raise'; [reflexivity |].
      by rewrite write_module_unknown.
Qed.

(** X9: with a [save_format] other than ['json'], ['jsonl'] and ['txt']
    and a count for every regime, [main] raises
    [ValueError('Unknown save format: ...')] when it comes to the first
    module, before it has sampled a problem or opened a file; it ends
    normally only when no regime has a module. *)
Theorem main_unknown_format (save_format : string) (w : world) :
  save_format ∉ ["json"; "jsonl"; "txt"] →
  counts_complete →
  ∃ new,
    writes new = [] ∧ opens new = []
    ∧ main save_format w
      = match schedule with
        | [] => Ok tt
        | _ :: _ =>
            Raise (ValueError ("Unknown save format: " +:+ save_format))
        end {| sampler := sampler w; trace := new ++ trace w |}.
Proof.
  intros Hfmt Hcounts. unfold main.
  erewrite bind_Ok by reflexivity.
  set (w1 := {| sampler := sampler w; trace := MakeDirs output_dir :: trace w |}).
  destruct (unknown_regime_loop save_format filtered_modules [] w1 Hfmt Hcounts)
    as (new & Hwrites & Hopens & Hrun).
  fold schedule in Hrun.
  exists (new ++ [MakeDirs output_dir]). split_and!.
  - by rewrite writes_app, Hwrites.
  - by rewrite opens_app, Hopens.
  - destruct schedule as [| j jobs].
    + erewrite bind_Ok by exact Hrun. unfold w1. cbn [sampler trace].
      by rewrite <- app_assoc.
    + erewrite bind_Raise by exact Hrun. unfold w1. cbn [sampler trace].
      by rewrite <- app_assoc.
Qed.

(** ** A regime without its count *)

Lemma write_regime_uncounted
    (save_format regime : string) (flat_modules : list (string * Module_))
    (dataset_list : list entry) (w : world) :
  counts !! regime = None →
  write_regime save_format regime flat_modules dataset_list w
  = Raise (KeyError regime)
      {| sampler := sampler w;
         trace := MakeDirs (os_path_join output_dir regime) :: trace w |}.
Proof.
  intros Hnone. unfold write_regime. cbv zeta.
  erewrite bind_Ok by reflexivity.
  erewrite bind_Raise; [reflexivity |].
  unfold counts_getitem. rewrite Hnone. reflexivity.
Qed.

(** X10: when [generate.counts] has no entry for a regime, [main] raises
    [KeyError] for it as it comes to that regime, having already created
    the regime's directory; this comes before the format is looked at, so
    whatever the [save_format] when the regime is the first one.  With
    [save_format = 'json'] the JSON files of the regimes before it have
    been written by then, as in a full run. *)
Theorem main_missing_count
    (regime : string) (flat_modules : list (string * Module_))
    (before after : list (string * list (string * Module_))) (w : world) :
  filtered_modules = before ++ (regime, flat_modules) :: after →
  counts !! regime = None →
  (∀ r fm, (r, fm) ∈ before → is_Some (counts !! r)) →
  (∀ save_format,
     before = [] →
     main save_format w
     = Raise (KeyError regime)
         {| sampler := sampler w;
            trace := [MakeDirs (os_path_join output_dir regime);
                      MakeDirs output_dir] ++ trace w |})
  ∧ ∃ new,
      main "json" w
      = Raise (KeyError regime)
          {| sampler := (after_jobs (schedule_of before) [] (sampler w)).2;
             trace := MakeDirs (os_path_join output_dir regime)
                      :: new ++ trace w |}
      ∧ writes new
        = map (λ f, (f.1, JsonList f.2))
            (json_files (schedule_of before) [] (sampler w)).
Proof.
  intros Hmodules Hnone Hbefore. split.
  - intros save_format ->. unfold main. rewrite Hmodules.
    erewrite bind_Ok by reflexivity.
    erewrite bind_Raise; [reflexivity |]. cbn [app for_in].
    erewrite bind_Raise'; [reflexivity |].
    by rewrite write_regime_uncounted.
  - set (w1 := {| sampler := sampler w;
                  trace := MakeDirs output_dir :: trace w |}).
    destruct (json_regime_loop before [] w1 Hbefore) as (new & Hrun & Hwrites).
    cbv zeta in Hrun, Hwrites.
    change (sampler w1) with (sampler w) in Hrun, Hwrites.
    exists (new ++ [MakeDirs output_dir]). split.
    + unfold main. rewrite Hmodules.
      erewrite bind_Ok by reflexivity.
      erewrite bind_Raise; [reflexivity |].
      erewrite for_in_app_Ok by exact Hrun. cbn [for_in].
      erewrite bind_Raise'; [reflexivity |].
      rewrite write_regime_uncounted by done.
      unfold w1. cbn [sampler trace]. by rewrite <- app_assoc.
    + rewrite writes_app. exact Hwrites.
Qed.

(** ** Where the files go *)

Lemma os_path_join_relative (a b : string) :
  ¬ is_absolute b → os_path_join a b = a +:+ path_sep a +:+ b.
Proof.
  intros Hrel. unfold os_path_join.
  assert ((if bool_decide (a = EmptyString) then b
           else if ends_with_sep a then a +:+ b else a +:+ "/" +:+ b)
          = a +:+ path_sep a +:+ b) as Hjoin.
  { unfold path_sep.
    destruct (bool_decide_reflect (a = EmptyString)) as [-> | _]; [done |].
    by destruct (ends_with_sep a). }
  destruct b as [| c b]; [exact Hjoin |].
  destruct (bool_decide_reflect (c = "/"%char)) as [-> | _]; [| exact Hjoin].
  destruct Hrel. by exists b.
Qed.

Lemma append_relative (a b : string) :
  ¬ is_absolute a → ¬ is_absolute b → ¬ is_absolute (a +:+ b).
Proof.
  intros Ha Hb. destruct a as [| c a]; [done |].
  intros [rest Hrest]. apply Ha.
  change (String c (a +:+ b) = String "/" rest) in Hrest.
  injection Hrest as -> _. by exists a.
Qed.

Lemma job_path_shape (extension : string) (j : job) :
  ¬ is_absolute (job_regime j) →
  ¬ is_absolute (job_name j) →
  ¬ is_absolute extension →
  let regime_dir := output_dir +:+ path_sep output_dir +:+ job_regime j in
  job_path extension j
  = regime_dir +:+ path_sep regime_dir +:+ job_name j +:+ extension.
Proof.
  intros Hregime Hname Hext regime_dir. unfold job_path.
  rewrite (os_path_join_relative output_dir (job_regime j) Hregime).
  fold regime_dir.
  by rewrite os_path_join_relative by by apply append_relative.
Qed.

Lemma schedule_of_relative
    (regimes : list (string * list (string * Module_))) (j : job) :
  (∀ regime flat_modules,
     (regime, flat_modules) ∈ regimes →
     ¬ is_absolute regime
     ∧ ∀ module_name module,
         (module_name, module) ∈ flat_modules → ¬ is_absolute module_name) →
  j ∈ schedule_of regimes →
  ¬ is_absolute (job_regime j) ∧ ¬ is_absolute (job_name j).
Proof.
  intros Hnames Hj. unfold schedule_of in Hj.
  apply list_elem_of_In, in_flat_map in Hj
    as ([regime flat_modules] & Hregime & Hj).
  unfold regime_jobs in Hj.
  apply in_map_iff in Hj as ([module_name module] & <- & Hmodule).
  apply list_elem_of_In in Hregime, Hmodule.
  destruct (Hnames regime flat_modules Hregime) as [Hrel Hmods].
  split; [exact Hrel |]. by eapply Hmods.
Qed.

Lemma txt_writes_paths (jobs : list job) (s : Sampler) :
  Forall (λ f, ∃ j, j ∈ jobs ∧ f.1 = job_path ".txt" j) (txt_writes jobs s).
Proof.
  revert s. induction jobs as [| j jobs IH]; intros s; [constructor |].
  cbn [txt_writes]. apply Forall_app. split.
  - apply Forall_forall. intros f Hf.
    apply list_elem_of_In, in_map_iff in Hf as (line & <- & _).
    exists j. split; [apply list_elem_of_here | done].
  - eapply Forall_impl; [apply IH |].
    intros f (j' & Hj' & Hf). exists j'.
    split; [by apply list_elem_of_further | done].
Qed.

Lemma json_files_paths (jobs : list job) (dataset_list : list entry) s :
  Forall (λ f, ∃ j, j ∈ jobs ∧ f.1 = job_path ".json" j)
    (json_files jobs dataset_list s).
Proof.
  revert dataset_list s. induction jobs as [| j jobs IH];
    intros dataset_list s; [constructor |].
  cbn [json_files]. constructor.
  - exists j. split; [apply list_elem_of_here | done].
  - eapply Forall_impl; [apply IH |].
    intros f (j' & Hj' & Hf). exists j'.
    split; [by apply list_elem_of_further | done].
Qed.

(** X11: when no regime and no module is named by an absolute path, the
    path of every file that [main] writes with [save_format] ['json'] or
    ['txt'] is made of the output directory, the regime of a module of the
    schedule and the module's name followed by ['.' + save_format], with a
    separator between two parts unless the part before is empty or ends
    with one.  This is about the path as a string: a regime named
    ['../elsewhere'] still leads out of the output directory. *)
Theorem main_file_paths (save_format : string) (w : world) :
  save_format ∈ ["json"; "txt"] →
  counts_complete →
  relative_names →
  ∃ new w',
    main save_format w = Ok tt w'
    ∧ trace w' = new ++ trace w
    ∧ Forall (λ f, ∃ j,
                j ∈ schedule
                ∧ let regime_dir :=
                    output_dir +:+ path_sep output_dir +:+ job_regime j in
                  f.1 = regime_dir +:+ path_sep regime_dir +:+ job_name j
                        +:+ "." +:+ save_format)
        (writes new).
Proof.
  intros Hfmt Hcounts Hnames.
  assert (∀ extension j,
            j ∈ schedule → ¬ is_absolute extension →
            let regime_dir :=
              output_dir +:+ path_sep output_dir +:+ job_regime j in
            job_path extension j
            = regime_dir +:+ path_sep regime_dir +:+ job_name j
              +:+ extension) as Hshape.
  { intros extension j Hj Hext.
    destruct (schedule_of_relative filtered_modules j Hnames Hj).
    by apply job_path_shape. }
  apply elem_of_cons in Hfmt as [-> | Hfmt];
    [| apply list_elem_of_singleton in Hfmt as ->].
  - destruct (main_json_run w Hcounts) as (new & Hrun & Hwrites).
    exists new. eexists. split_and!; [exact Hrun | done |].
    rewrite Hwrites. apply Forall_map.
    eapply Forall_impl; [apply json_files_paths |].
    intros f (j & Hj & Hf). cbn [fst].
    exists j. split; [done |]. rewrite Hf. apply (Hshape ".json" j Hj).
    intros [rest Hrest]. discriminate Hrest.
  - destruct (main_txt_run w Hcounts) as (new & Hrun & Hwrites & _).
    exists new. eexists. split_and!; [exact Hrun | done |].
    rewrite Hwrites.
    eapply Forall_impl; [apply txt_writes_paths |].
    intros f (j & Hj & Hf).
    exists j. split; [done |]. rewrite Hf. apply (Hshape ".txt" j Hj).
    intros [rest Hrest]. discriminate Hrest.
Qed.

End WithGenerate.

(** ** On the concrete [generate] modules *)

Lemma two_regimes_relative_names (per_train_module per_test_module : Z) :
  relative_names (H := two_regimes per_train_module per_test_module).
Proof.
  intros regime flat_modules Hin.
  repeat (apply elem_of_cons in Hin as [Hin | Hin];
    [ injection Hin as -> ->; split;
      [ intros [rest Hrest]; discriminate Hrest
      | intros module_name module Hmod;
        repeat (apply elem_of_cons in Hmod as [Hmod | Hmod];
          [ injection Hmod as -> _; intros [rest Hrest]; discriminate Hrest
          | ]);
        by apply elem_of_nil in Hmod ]
    | ]).
  by apply elem_of_nil in Hin.
Defined.

Lemma main_txt_two_lines_per_problem_witness :
  counts_complete (H := two_regimes 1 2)
  ∧ ∃ w',
      main (H := two_regimes 1 2) "txt" (two_regimes_start 1 2) = Ok tt w'
      ∧ length (writes (trace w')) = 8.
Proof.
  split; [exact (two_regimes_counts_complete 1 2) |].
  destruct (main_txt_two_lines_per_problem (H := two_regimes 1 2)
              (two_regimes_start 1 2) (two_regimes_counts_complete 1 2))
    as (new & w' & Hrun & Htrace & _ & _ & Hlength).
  exists w'. split; [exact Hrun |].
  rewrite Htrace. cbn [two_regimes_start trace]. rewrite app_nil_r.
  exact Hlength.
Defined.

Lemma main_txt_lines_are_last_json_file_witness :
  counts_complete (H := two_regimes 1 2)
  ∧ ∃ w_txt w_json,
      main (H := two_regimes 1 2) "txt" (two_regimes_start 1 2) = Ok tt w_txt
      ∧ main (H := two_regimes 1 2) "json" (two_regimes_start 1 2)
        = Ok tt w_json
      ∧ sampler w_txt = sampler w_json.
Proof.
  split; [exact (two_regimes_counts_complete 1 2) |].
  destruct (main_txt_lines_are_last_json_file (H := two_regimes 1 2)
              (two_regimes_start 1 2) (two_regimes_counts_complete 1 2))
    as (txt_new & json_new & w_txt & w_json
        & Htxt & _ & Hjson & _ & Hsampler & _).
  by exists w_txt, w_json.
Defined.

Lemma main_unknown_format_witness :
("csv" ∉ ["json"; "jsonl"; "txt"])
  ∧ counts_complete (H := two_regimes 1 2)
  ∧ ∃ w',
      main (H := two_regimes 1 2) "csv" (two_regimes_start 1 2)
      = Raise (ValueError "Unknown save format: csv") w'.
Proof.
  assert ("csv" ∉ ["json"; "jsonl"; "txt"]) as Hfmt.
  { rewrite !not_elem_of_cons. split_and!; [done | done | done |].
    apply not_elem_of_nil. }
  split; [exact Hfmt |].
  split; [exact (two_regimes_counts_complete 1 2) |].
  destruct (main_unknown_format (H := two_regimes 1 2) "csv"
              (two_regimes_start 1 2) Hfmt (two_regimes_counts_complete 1 2))
    as (new & _ & _ & Hrun).
  eexists. exact Hrun.
Defined.

Lemma main_missing_count_witness :
  counts (Generate := train_count_only 2) !! "interpolate" = None
  ∧ ∃ w',
      main (H := train_count_only 2) "json"
        (@Build_world (train_count_only 2) 0 [])
      = Raise (KeyError "interpolate") w'
      ∧ length (writes (trace w')) = 2.
Proof.
  split; [reflexivity |].
  destruct (main_missing_count (H := train_count_only 2)
              "interpolate"
              [("algebra__linear_1d",
                "linear_1d" : @Module_ (train_count_only 2))]
              [("train",
                [("algebra__linear_1d",
                  "linear_1d" : @Module_ (train_count_only 2));
                 ("algebra__polynomial_roots",
                  "polynomial_roots" : @Module_ (train_count_only 2))])]
              []
              (@Build_world (train_count_only 2) 0 []))
    as [_ (new & Hrun & Hwrites)].
  - reflexivity.
  - reflexivity.
  - intros r fm Hin. apply list_elem_of_singleton in Hin.
    injection Hin as -> _. by eexists.
  - eexists. split; [exact Hrun |].
    cbn [trace]. change (?x :: new ++ []) with ([x] ++ new ++ []).
    rewrite !writes_app, Hwrites. reflexivity.
Defined.

Lemma main_file_paths_witness :
  ("txt" ∈ ["json"; "txt"])
  ∧ counts_complete (H := two_regimes 1 2)
  ∧ relative_names (H := two_regimes 1 2)
  ∧ ∃ w',
      main (H := two_regimes 1 2) "txt" (two_regimes_start 1 2) = Ok tt w'.
Proof.
  assert ("txt" ∈ ["json"; "txt"]) as Hfmt
    by apply list_elem_of_further, list_elem_of_here.
  split; [exact Hfmt |].
  split; [exact (two_regimes_counts_complete 1 2) |].
  split; [exact (two_regimes_relative_names 1 2) |].
  destruct (main_file_paths (H := two_regimes 1 2) "txt"
              (two_regimes_start 1 2) Hfmt (two_regimes_counts_complete 1 2)
              (two_regimes_relative_names 1 2))
    as (new & w' & Hrun & _).
  exists w'. exact Hrun.
Defined.

End GenerateToFileExtra.
